(** * PlantCare: the plant collection store and its views

    A shallow embedding of the PlantCare React application: the store of
    App.jsx, the dashboard, the add-plant form, the plant manager, the plant
    card and the gallery, with the JavaScript built-ins they call (strings,
    [Date], [JSON]), followed by the properties proved of them.

    Modelling conventions.
    - A JavaScript string is a byte string, the UTF-8 encoding of the text.
      White space is the white space of the language, ASCII or not; the
      case of letters is modelled for ASCII texts, and lowering any other
      text is [Beyond].
    - A JavaScript number is an integer of [Z]; [NaN] is [None] where a
      built-in can produce it.  Integers up to 2^53 are numbers of
      JavaScript; where a built-in can go past them the result is
      [Beyond].
    - A plant is a JavaScript object with primitive fields: a finite map from
      property names to values.  A missing property reads as [None]
      (JavaScript's [undefined]).  [JSON.stringify] writes the members of a
      plant in the enumeration order of the map.
    - An event handler reads the clock once. *)

From Stdlib Require Import ZArith List Bool Lia Permutation Sorted.
From Stdlib Require Import Ascii String DecimalString DecimalN.
From stdpp Require Import gmap strings list fin_maps.

Local Open Scope Z_scope.

(** Text concatenation unfolds on a constructor, as list concatenation does. *)
#[local] Arguments String.append !_ _ / : simpl nomatch.

(** ** JavaScript values and completions *)

Inductive value : Type :=
| VNull
| VBool (b : bool)
| VNum (n : Z)
| VStr (s : string).

#[global] Instance value_eq_dec : EqDecision value.
Proof. solve_decision. Defined.

(** Exceptions the modelled code can raise. *)
Inductive error : Type := SyntaxError | RangeError | TypeError.

(** The completion of an evaluation: a value, a thrown exception, or
    [Beyond] where JavaScript would continue with behaviour this model does
    not cover (fractional numbers, numbers that are not exact, the case of
    letters outside ASCII, string-to-number coercions, values that are not
    plant collections). *)
Inductive result (A : Type) : Type :=
| Ok (a : A)
| Throw (e : error)
| Beyond.
Arguments Ok {A} a.
Arguments Throw {A} e.
Arguments Beyond {A}.

#[global] Instance result_ret : MRet result := fun A a => Ok a.
#[global] Instance result_bind : MBind result := fun A B k r =>
  match r with
  | Ok a => k a
  | Throw e => Throw e
  | Beyond => Beyond
  end.

#[global] Instance error_eq_dec : EqDecision error.
Proof. solve_decision. Defined.

#[global] Instance result_eq_dec {A : Type} `{EqDecision A} :
  EqDecision (result A).
Proof. solve_decision. Defined.

(** [a === b] on primitive operands, either of which may be [undefined]. *)
Definition strict_eq (a b : option value) : bool := bool_decide (a = b).

(** ** String built-ins *)

Module Text.

Definition code (c : ascii) : Z := Z.of_N (N_of_ascii c).

Definition dquote : ascii := "034"%char.
Definition backslash : ascii := "092"%char.

(** White space as [trim] and [parseInt] recognise it, each character by
    the bytes of its UTF-8 encoding: TAB, LF, VT, FF, CR and SP of ASCII, the
    no-break space, the space separators of Unicode, the line and paragraph
    separators and the byte order mark. *)
Definition white_space : list string :=
  [ String "009" EmptyString;  (* U+0009 *)
    String "010" EmptyString;  (* U+000A *)
    String "011" EmptyString;  (* U+000B *)
    String "012" EmptyString;  (* U+000C *)
    String "013" EmptyString;  (* U+000D *)
    String "032" EmptyString;  (* U+0020 *)
    String "194" (String "160" EmptyString);  (* U+00A0 *)
    String "225" (String "154" (String "128" EmptyString));  (* U+1680 *)
    String "226" (String "128" (String "128" EmptyString));  (* U+2000 *)
    String "226" (String "128" (String "129" EmptyString));  (* U+2001 *)
    String "226" (String "128" (String "130" EmptyString));  (* U+2002 *)
    String "226" (String "128" (String "131" EmptyString));  (* U+2003 *)
    String "226" (String "128" (String "132" EmptyString));  (* U+2004 *)
    String "226" (String "128" (String "133" EmptyString));  (* U+2005 *)
    String "226" (String "128" (String "134" EmptyString));  (* U+2006 *)
    String "226" (String "128" (String "135" EmptyString));  (* U+2007 *)
    String "226" (String "128" (String "136" EmptyString));  (* U+2008 *)
    String "226" (String "128" (String "137" EmptyString));  (* U+2009 *)
    String "226" (String "128" (String "138" EmptyString));  (* U+200A *)
    String "226" (String "128" (String "168" EmptyString));  (* U+2028 *)
    String "226" (String "128" (String "169" EmptyString));  (* U+2029 *)
    String "226" (String "128" (String "175" EmptyString));  (* U+202F *)
    String "226" (String "129" (String "159" EmptyString));  (* U+205F *)
    String "227" (String "128" (String "128" EmptyString));  (* U+3000 *)
    String "239" (String "187" (String "191" EmptyString))   (* U+FEFF *)
  ].

(** [w] is one white-space character. *)
Definition is_white (w : string) : bool := existsb (String.eqb w) white_space.

(** A text that is white space throughout, the empty text included. *)
Inductive blank : string -> Prop :=
| blank_empty : blank EmptyString
| blank_white (w s : string) : In w white_space -> blank s -> blank (w +:+ s).

(** [s.trimStart()]: a white-space character at the front takes one, two
    or three bytes. *)
Fixpoint trimStart (s : string) : string :=
  match s with
  | String a s1 =>
      if is_white (String a EmptyString) then trimStart s1
      else match s1 with
           | String b s2 =>
               if is_white (String a (String b EmptyString)) then trimStart s2
               else match s2 with
                    | String c s3 =>
                        if is_white (String a (String b (String c EmptyString)))
                        then trimStart s3 else s
                    | EmptyString => s
                    end
           | EmptyString => s
           end
  | EmptyString => EmptyString
  end.

(** [s.trimEnd()]: the bytes of [s] before the point from which it is
    white space throughout.  In a UTF-8 text that point is the start of a
    character, since a byte inside a character starts no other character. *)
Fixpoint trimEnd (s : string) : string :=
  match s with
  | String c s' =>
      match trimStart s with
      | EmptyString => EmptyString
      | String _ _ => String c (trimEnd s')
      end
  | EmptyString => EmptyString
  end.

(** [s.trim()] *)
Definition trim (s : string) : string := trimEnd (trimStart s).

(** Truthiness of a string: the empty string is the only falsy one. *)
Definition truthy (s : string) : bool :=
  match s with
  | EmptyString => false
  | String _ _ => true
  end.

(** A text of ASCII characters only. *)
Definition is_ascii (s : string) : bool :=
  forallb (fun c => code c <? 128) (list_ascii_of_string s).

(** The lower case of an ASCII character. *)
Definition lower_char (c : ascii) : ascii :=
  if (65 <=? code c) && (code c <=? 90)
  then ascii_of_N (N_of_ascii c + 32)
  else c.

Fixpoint lower (s : string) : string :=
  match s with
  | String c s' => String (lower_char c) (lower s')
  | EmptyString => EmptyString
  end.

(** [s.toLowerCase()].  On an ASCII text it lowers the letters A to Z and
    keeps every other character; the case mapping of Unicode for a text
    with other characters is outside this model. *)
Definition toLowerCase (s : string) : result string :=
  if is_ascii s then Ok (lower s) else Beyond.

(** Two characters that are the same or the two cases of one ASCII letter,
    and two texts that are so character by character: equality of texts
    when the case of letters is ignored. *)
Definition same_letter (a b : ascii) : bool :=
  Ascii.eqb a b
  || ((65 <=? code a) && (code a <=? 90) && (code b =? code a + 32))
  || ((65 <=? code b) && (code b <=? 90) && (code a =? code b + 32)).

Fixpoint equal_ignoring_case (s t : string) : bool :=
  match s, t with
  | EmptyString, EmptyString => true
  | String a s', String b t' => same_letter a b && equal_ignoring_case s' t'
  | _, _ => false
  end.

(** [s.includes(sub)] *)
Fixpoint includes (s sub : string) : bool :=
  String.prefix sub s ||
  match s with
  | String _ s' => includes s' sub
  | EmptyString => false
  end.

(** [a <= b] and [a > b] on two strings: code-unit lexicographic order. *)
Definition le (a b : string) : bool := String.leb a b.
Definition gt (a b : string) : bool := negb (String.leb a b).

(** [s.split(sep)[0]]: the part of [s] before the first [sep]. *)
Fixpoint split_first (sep : ascii) (s : string) : string :=
  match s with
  | String c s' =>
      if Ascii.eqb c sep then EmptyString else String c (split_first sep s')
  | EmptyString => EmptyString
  end.

(** A text without the separator is passed over by [split_first]. *)
Definition free_of (sep : ascii) (s : string) : Prop :=
  forall r, split_first sep (s +:+ r) = s +:+ split_first sep r.

(** Decimal rendering of an integer, as [String(n)] gives it. *)
Definition show_N (n : N) : string := NilZero.string_of_uint (N.to_uint n).

Definition show_Z (n : Z) : string :=
  if n <? 0 then String "-" (show_N (Z.to_N (- n))) else show_N (Z.to_N n).

(** [String(n).padStart(width, "0")] for a natural number. *)
Fixpoint zeros (k : nat) : string :=
  match k with
  | O => EmptyString
  | S k' => String "0" (zeros k')
  end.

Definition pad (width : nat) (n : Z) : string :=
  let s := show_N (Z.to_N n) in
  zeros (width - String.length s) +:+ s.

Definition is_digit (c : ascii) : bool := (48 <=? code c) && (code c <=? 57).

(** The longest prefix of decimal digits, and what follows it. *)
Fixpoint span_digits (s : string) : string * string :=
  match s with
  | String c s' =>
      if is_digit c
      then let '(d, r) := span_digits s' in (String c d, r)
      else (EmptyString, s)
  | EmptyString => (EmptyString, EmptyString)
  end.

(** The value of [c] as a digit in the given radix, if it is one. *)
Definition digit_value (radix : Z) (c : ascii) : option Z :=
  let n := code c in
  let d := if (48 <=? n) && (n <=? 57) then Some (n - 48)
           else if (97 <=? n) && (n <=? 122) then Some (n - 87)
           else if (65 <=? n) && (n <=? 90) then Some (n - 55)
           else None in
  match d with
  | Some v => if v <? radix then Some v else None
  | None => None
  end.

(** Reads digits while there are some; [acc] is [None] until the first. *)
Fixpoint parse_digits (radix : Z) (acc : option Z) (s : string) : option Z :=
  match s with
  | String c s' =>
      match digit_value radix c with
      | Some d => parse_digits radix (Some (radix * default 0 acc + d)) s'
      | None => acc
      end
  | EmptyString => acc
  end.

(** The integers up to this bound, 2^53, are numbers of JavaScript. *)
Definition max_exact : Z := 9007199254740992.

(** [parseInt(s)] without a radix argument; [None] is [NaN].  The number
    is the double nearest to the integer read: that integer when it is at
    most 2^53, and outside the integer model beyond. *)
Definition parseInt (s : string) : result (option Z) :=
  let s := trimStart s in
  let '(sign, s) :=
    match s with
    | String "-" r => (-1, r)
    | String "+" r => (1, r)
    | _ => (1, s)
    end in
  let '(radix, s) :=
    match s with
    | String "0" (String "x" r) | String "0" (String "X" r) => (16, r)
    | _ => (10, s)
    end in
  match parse_digits radix None s with
  | Some n => if n <=? max_exact then Ok (Some (sign * n)) else Beyond
  | None => Ok None
  end.

End Text.
(** ** The Date built-in *)

Module Date.

Definition msPerDay : Z := 86400000.

(** A time value is a number of milliseconds since 1970-01-01T00:00Z. *)
Definition Day (t : Z) : Z := t / msPerDay.
Definition TimeWithinDay (t : Z) : Z := t mod msPerDay.
Definition MakeDate (day time : Z) : Z := day * msPerDay + time.

(** Proleptic Gregorian calendar on day numbers (day 0 is 1970-01-01):
    the year, the month (1 to 12) and the day of the month of a day
    number, and the day number of a calendar date.  Years are counted from
    March inside 400-year eras of 146097 days. *)
Definition civil_from_days (z : Z) : Z * Z * Z :=
  let z := z + 719468 in
  let era := z / 146097 in
  let doe := z mod 146097 in
  let yoe := (doe - doe / 1460 + doe / 36524 - doe / 146096) / 365 in
  let doy := doe - (365 * yoe + yoe / 4 - yoe / 100) in
  let mp := (5 * doy + 2) / 153 in
  let d := doy - (153 * mp + 2) / 5 + 1 in
  let m := if mp <? 10 then mp + 3 else mp - 9 in
  let y := yoe + era * 400 in
  (if m <=? 2 then y + 1 else y, m, d).

Definition days_from_civil (y m d : Z) : Z :=
  let y := if m <=? 2 then y - 1 else y in
  let era := y / 400 in
  let yoe := y mod 400 in
  let doy := (153 * (if 2 <? m then m - 3 else m + 9) + 2) / 5 + d - 1 in
  let doe := yoe * 365 + yoe / 4 - yoe / 100 + doy in
  era * 146097 + doe - 719468.

Definition YearFromTime (t : Z) : Z := (civil_from_days (Day t)).1.1.
(** Months are numbered from 0 in the Date interface. *)
Definition MonthFromTime (t : Z) : Z := (civil_from_days (Day t)).1.2 - 1.
Definition DateFromTime (t : Z) : Z := (civil_from_days (Day t)).2.

(** [MakeDay(year, month, date)]: the day number of the first of the
    month, moved by [date - 1] days. *)
Definition MakeDay (year month date : Z) : Z :=
  let ym := year + month / 12 in
  let mn := month mod 12 in
  days_from_civil ym (mn + 1) 1 + date - 1.

(** Time values beyond 8.64e15 ms are not dates: [NaN], here [None]. *)
Definition TimeClip (t : Z) : option Z :=
  if Z.abs t <=? 8640000000000000 then Some t else None.

(** The host's time zone: the offset (local minus UTC, in ms) in force at
    a UTC time value, and the offset used to read a local time value back
    as UTC. *)
Record TimeZone : Type := {
  offsetOfUTC : Z -> Z;
  offsetOfLocal : Z -> Z
}.

Definition LocalTime (tz : TimeZone) (t : Z) : Z := t + offsetOfUTC tz t.
Definition UTC (tz : TimeZone) (t : Z) : Z := t - offsetOfLocal tz t.

(** [d.getDate()]: the day of the month in local time. *)
Definition getDate (tz : TimeZone) (t : Z) : Z := DateFromTime (LocalTime tz t).

(** [d.setDate(dt)]: replaces the day of the month in local time, keeping
    the local time of day; [dt] may leave the month.  The result is the new
    time value of [d], [None] for an invalid date. *)
Definition setDate (tz : TimeZone) (t : Z) (dt : option Z) : option Z :=
  match dt with
  | Some dt =>
      let lt := LocalTime tz t in
      let newDate :=
        MakeDate (MakeDay (YearFromTime lt) (MonthFromTime lt) dt)
                 (TimeWithinDay lt) in
      TimeClip (UTC tz newDate)
  | None => None
  end.

Definition year_string (y : Z) : string :=
  if (0 <=? y) && (y <=? 9999) then Text.pad 4 y
  else String (if y <? 0 then "-"%char else "+"%char) (Text.pad 6 (Z.abs y)).

(** The calendar date of a day number as YYYY-MM-DD. *)
Definition date_string (day : Z) : string :=
  let '(y, m, d) := civil_from_days day in
  year_string y +:+ "-" +:+ Text.pad 2 m +:+ "-" +:+ Text.pad 2 d.

Definition time_string (ms : Z) : string :=
  Text.pad 2 (ms / 3600000) +:+ ":" +:+ Text.pad 2 (ms / 60000 mod 60) +:+ ":"
  +:+ Text.pad 2 (ms / 1000 mod 60) +:+ "." +:+ Text.pad 3 (ms mod 1000).

(** The ISO rendering of a valid time value, always in UTC. *)
Definition iso (t : Z) : string :=
  date_string (Day t) +:+ "T" +:+ time_string (TimeWithinDay t) +:+ "Z".

(** [d.toISOString()]: throws a RangeError on an invalid date. *)
Definition toISOString (d : option Z) : result string :=
  match d with
  | Some t => Ok (iso t)
  | None => Throw RangeError
  end.

Definition is_leap (y : Z) : bool :=
  (y mod 4 =? 0) && (negb (y mod 100 =? 0) || (y mod 400 =? 0)).

Definition days_in_month (y m : Z) : Z :=
  if m =? 2 then (if is_leap y then 29 else 28)
  else if (m =? 4) || (m =? 6) || (m =? 9) || (m =? 11) then 30
  else 31.

Definition digit (c : ascii) : option Z :=
  if Text.is_digit c then Some (Text.code c - 48) else None.

(** [Date.parse(s)] on the date-only form YYYY-MM-DD, which is read as
    UTC midnight; [None] for any other text (longer ISO forms and the
    host's own formats are not modelled, see [of_value]). *)
Definition parse (s : string) : option Z :=
  match s with
  | String y1 (String y2 (String y3 (String y4 (String "-"
      (String m1 (String m2 (String "-"
        (String d1 (String d2 EmptyString))))))))) =>
      a ← digit y1; b ← digit y2; c ← digit y3; e ← digit y4;
      f ← digit m1; g ← digit m2; h ← digit d1; i ← digit d2;
      let y := 1000 * a + 100 * b + 10 * c + e in
      let m := 10 * f + g in
      let d := 10 * h + i in
      if (1 <=? m) && (m <=? 12) && (1 <=? d) && (d <=? days_in_month y m)
      then Some (days_from_civil y m d * msPerDay)
      else None
  | _ => None
  end.

(** The time value of [new Date(v)] for a property value [v]; [None] is
    an invalid date.  A text that is not a date of the form YYYY-MM-DD is
    read by rules this model does not cover. *)
Definition of_value (v : option value) : result (option Z) :=
  match v with
  | Some (VStr s) =>
      match parse s with
      | Some t => Ok (Some t)
      | None => Beyond
      end
  | Some (VNum n) => Ok (TimeClip n)
  | Some VNull => Ok (Some 0)
  | Some (VBool b) => Ok (Some (if b then 1 else 0))
  | None => Ok None
  end.

(** [Math.ceil(a / b)] for integers [a] and a positive [b]. *)
Definition ceil_div (a b : Z) : Z := - ((- a) / b).

(** The host keeps, [k] days of local time after [t], the offset it has
    at [t]: no change of daylight-saving time falls in between. *)
Definition steady (tz : TimeZone) (t k : Z) : Prop :=
  offsetOfLocal tz (LocalTime tz t + k * msPerDay) = offsetOfUTC tz t.

(** The time values a Date can hold. *)
Definition in_range (t : Z) : Prop := Z.abs t <= 8640000000000000.

(** Time zones used in the examples. *)
Definition fixed_zone (offset : Z) : TimeZone :=
  {| offsetOfUTC := fun _ => offset; offsetOfLocal := fun _ => offset |}.

Definition utc_zone : TimeZone := fixed_zone 0.

(** India Standard Time, UTC+05:30 all year. *)
Definition kolkata : TimeZone := fixed_zone 19800000.

(** US Eastern time around its 2024 transitions: UTC-4 from
    2024-03-10T07:00Z to 2024-11-03T06:00Z, UTC-5 outside; a local time is
    read with the offset in force before a transition it falls into. *)
Definition new_york_2024 : TimeZone :=
  {| offsetOfUTC := fun t =>
       if (1710054000000 <=? t) && (t <? 1730613600000)
       then -14400000 else -18000000;
     offsetOfLocal := fun lt =>
       if (1710039600000 <=? lt) && (lt <? 1730599200000)
       then -14400000 else -18000000 |}.

End Date.
(** ** The JSON built-in *)

Module Json.

(** A JSON text denotes a primitive, an array or an object whose members
    are kept in the order of the text. *)
#[local] Unset Elimination Schemes.
Inductive json : Type :=
| JPrim (v : value)
| JArr (items : list json)
| JObj (members : list (string * json)).
#[local] Set Elimination Schemes.

(** *** [JSON.stringify] *)

Definition hex_digit (n : Z) : ascii :=
  if n <? 10 then ascii_of_N (Z.to_N (48 + n)) else ascii_of_N (Z.to_N (87 + n)).

(** How one character of a string is written inside the quotes. *)
Definition escape_char (c : ascii) : string :=
  match c with
  | "034" => String Text.backslash (String Text.dquote EmptyString)
  | "092" => String Text.backslash (String Text.backslash EmptyString)
  | "008" => String Text.backslash "b"
  | "012" => String Text.backslash "f"
  | "010" => String Text.backslash "n"
  | "013" => String Text.backslash "r"
  | "009" => String Text.backslash "t"
  | _ =>
      if (Text.code c <? 32)%Z
      then String Text.backslash
             (String "u" (String "0" (String "0"
               (String (hex_digit (Text.code c / 16)%Z)
                 (String (hex_digit (Text.code c mod 16)%Z) EmptyString)))))
      else String c EmptyString
  end%char.

Fixpoint escape (s : string) : string :=
  match s with
  | String c s' => escape_char c +:+ escape s'
  | EmptyString => EmptyString
  end.

Definition quote (s : string) : string :=
  String Text.dquote (escape s +:+ String Text.dquote EmptyString).

Definition print_value (v : value) : string :=
  match v with
  | VNull => "null"
  | VBool true => "true"
  | VBool false => "false"
  | VNum n => Text.show_Z n
  | VStr s => quote s
  end.

(** The texts of a list, separated by commas. *)
Fixpoint join (parts : list string) : string :=
  match parts with
  | [] => EmptyString
  | [p] => p
  | p :: ps => p +:+ "," +:+ join ps
  end.

Fixpoint print (j : json) : string :=
  match j with
  | JPrim v => print_value v
  | JArr items => "[" +:+ join (List.map print items) +:+ "]"
  | JObj members =>
      "{" +:+ join (List.map (fun kv => quote kv.1 +:+ ":" +:+ print kv.2) members)
      +:+ "}"
  end.

(** *** [JSON.parse] *)

Definition is_ws (c : ascii) : bool :=
  match c with
  | "009" | "010" | "013" | " " => true
  | _ => false
  end%char.

Fixpoint skip_ws (s : string) : string :=
  match s with
  | String c s' => if is_ws c then skip_ws s' else s
  | EmptyString => EmptyString
  end.

(** The character a four-digit [\u] escape stands for, when it is ASCII;
    escapes of other code points are outside the byte-string model. *)
Definition unicode_escape (h1 h2 h3 h4 : ascii) : result ascii :=
  match Text.digit_value 16 h1, Text.digit_value 16 h2,
        Text.digit_value 16 h3, Text.digit_value 16 h4 with
  | Some a, Some b, Some c, Some d =>
      let n := 4096 * a + 256 * b + 16 * c + d in
      if n <? 128 then Ok (ascii_of_N (Z.to_N n)) else Beyond
  | _, _, _, _ => Throw SyntaxError
  end.

(** Reads the characters of a string literal after its opening quote and
    returns them with the text after the closing quote. *)
Fixpoint parse_chars (s : string) : result (string * string) :=
  match s with
  | EmptyString => Throw SyntaxError
  | String c s' =>
      if Ascii.eqb c Text.dquote then Ok (EmptyString, s')
      else if Ascii.eqb c Text.backslash then
        match s' with
        | String e s'' =>
            let simple (ch : ascii) :=
              '(cs, rest) ← parse_chars s''; Ok (String ch cs, rest) in
            match e with
            | "034" => simple Text.dquote
            | "092" => simple Text.backslash
            | "/" => simple "/"
            | "b" => simple "008"
            | "f" => simple "012"
            | "n" => simple "010"
            | "r" => simple "013"
            | "t" => simple "009"
            | "u" =>
                match s'' with
                | String h1 (String h2 (String h3 (String h4 s5))) =>
                    ch ← unicode_escape h1 h2 h3 h4;
                    '(cs, rest) ← parse_chars s5; Ok (String ch cs, rest)
                | _ => Throw SyntaxError
                end
            | _ => Throw SyntaxError
            end%char
        | EmptyString => Throw SyntaxError
        end
      else if Text.code c <? 32 then Throw SyntaxError
      else '(cs, rest) ← parse_chars s'; Ok (String c cs, rest)
  end.

(** Reads the digits of a number; [s] starts after an optional minus
    sign.  A leading zero may not be followed by a digit; a fraction or an
    exponent is outside the integer model. *)
Definition parse_digits (s : string) : result (Z * string) :=
  let '(ds, rest) := Text.span_digits s in
  match NilZero.uint_of_string ds with
  | Some u =>
      if Decimal.uint_beq (Decimal.unorm u) u then
        match rest with
        | String c _ =>
            if Ascii.eqb c "." || Ascii.eqb c "e" || Ascii.eqb c "E"
            then Beyond
            else Ok (Z.of_N (N.of_uint u), rest)
        | EmptyString => Ok (Z.of_N (N.of_uint u), rest)
        end
      else Throw SyntaxError
  | None => Throw SyntaxError
  end.

Definition parse_number (s : string) : result (Z * string) :=
  match s with
  | String c s' =>
      if Ascii.eqb c "-"
      then '(n, rest) ← parse_digits s'; Ok (- n, rest)
      else parse_digits s
  | EmptyString => Throw SyntaxError
  end.

(** [strip p s] is the text after the prefix [p] of [s]. *)
Fixpoint strip (p s : string) : option string :=
  match p, s with
  | EmptyString, _ => Some s
  | String a p', String b s' => if Ascii.eqb a b then strip p' s' else None
  | String _ _, EmptyString => None
  end.

Definition parse_literal (lit : string) (v : value) (s : string)
    : result (json * string) :=
  match strip lit s with
  | Some rest => Ok (JPrim v, rest)
  | None => Throw SyntaxError
  end.

(** Recursive descent; every call consumes fuel.  A value inside an array
    or an object is reached through two calls that come after at least one
    character, so [parse] below gives two units of fuel for each character
    of the text. *)
Fixpoint parse_value (fuel : nat) (s : string) : result (json * string) :=
  match fuel with
  | O => Beyond
  | S fuel =>
      match skip_ws s with
      | EmptyString => Throw SyntaxError
      | String c r =>
          if Ascii.eqb c "{" then
            match skip_ws r with
            | String c' r' =>
                if Ascii.eqb c' "}" then Ok (JObj [], r')
                else '(ms, r'') ← parse_members fuel r; Ok (JObj ms, r'')
            | EmptyString => Throw SyntaxError
            end
          else if Ascii.eqb c "[" then
            match skip_ws r with
            | String c' r' =>
                if Ascii.eqb c' "]" then Ok (JArr [], r')
                else '(vs, r'') ← parse_items fuel r; Ok (JArr vs, r'')
            | EmptyString => Throw SyntaxError
            end
          else if Ascii.eqb c Text.dquote then
            '(str, r') ← parse_chars r; Ok (JPrim (VStr str), r')
          else if Ascii.eqb c "n" then
            parse_literal "null" VNull (String c r)
          else if Ascii.eqb c "t" then
            parse_literal "true" (VBool true) (String c r)
          else if Ascii.eqb c "f" then
            parse_literal "false" (VBool false) (String c r)
          else '(n, r') ← parse_number (String c r); Ok (JPrim (VNum n), r')
      end
  end
with parse_items (fuel : nat) (s : string) : result (list json * string) :=
  match fuel with
  | O => Beyond
  | S fuel =>
      '(v, r) ← parse_value fuel s;
      match skip_ws r with
      | String c r' =>
          if Ascii.eqb c "," then
            '(vs, r'') ← parse_items fuel r'; Ok (v :: vs, r'')
          else if Ascii.eqb c "]" then Ok ([v], r')
          else Throw SyntaxError
      | EmptyString => Throw SyntaxError
      end
  end
with parse_members (fuel : nat) (s : string)
    : result (list (string * json) * string) :=
  match fuel with
  | O => Beyond
  | S fuel =>
      match skip_ws s with
      | String q r =>
          if Ascii.eqb q Text.dquote then
            '(k, r1) ← parse_chars r;
            match skip_ws r1 with
            | String c r2 =>
                if Ascii.eqb c ":" then
                  '(v, r3) ← parse_value fuel r2;
                  match skip_ws r3 with
                  | String c' r4 =>
                      if Ascii.eqb c' "," then
                        '(ms, r5) ← parse_members fuel r4;
                        Ok ((k, v) :: ms, r5)
                      else if Ascii.eqb c' "}" then Ok ([(k, v)], r4)
                      else Throw SyntaxError
                  | EmptyString => Throw SyntaxError
                  end
                else Throw SyntaxError
            | EmptyString => Throw SyntaxError
            end
          else Throw SyntaxError
      | EmptyString => Throw SyntaxError
      end
  end.

(** [JSON.parse(text)]: a SyntaxError unless the whole text is one value. *)
Definition parse (text : string) : result json :=
  '(j, rest) ← parse_value (S (2 * String.length text)) text;
  match skip_ws rest with
  | EmptyString => Ok j
  | String _ _ => Throw SyntaxError
  end.

(** The fuel that reading back the text of a value takes. *)
Fixpoint weight (j : json) : nat :=
  match j with
  | JPrim _ => 1
  | JArr items => S (list_sum (List.map (fun v => S (weight v)) items))
  | JObj members => S (list_sum (List.map (fun kv => S (weight kv.2)) members))
  end.

(** What may follow a value inside a text: nothing, or a separator. *)
Definition delimited (rest : string) : bool :=
  match rest with
  | EmptyString => true
  | String c _ => Ascii.eqb c "," || Ascii.eqb c "]" || Ascii.eqb c "}"
  end.

(** *** Plant collections as JSON *)

Definition of_plant (plant : gmap string value) : json :=
  JObj ((fun kv : string * value => (kv.1, JPrim kv.2)) <$> map_to_list plant).

Definition of_plants (plants : list (gmap string value)) : json :=
  JArr (of_plant <$> plants).

(** [JSON.stringify(plants)].  Members are written in the enumeration
    order of the map rather than in insertion order; reading a text back
    does not depend on that order. *)
Definition stringify (plants : list (gmap string value)) : string :=
  print (of_plants plants).

(** An object read from a text: a later member of the same name replaces
    an earlier one.  Plants hold primitives only. *)
Fixpoint to_plant (members : list (string * json)) (acc : gmap string value)
    : result (gmap string value) :=
  match members with
  | [] => Ok acc
  | (k, JPrim v) :: rest => to_plant rest (<[k := v]> acc)
  | _ :: _ => Beyond
  end.

Fixpoint to_plants (items : list json) : result (list (gmap string value)) :=
  match items with
  | [] => Ok []
  | JObj members :: rest =>
      plant ← to_plant members ∅; plants ← to_plants rest; Ok (plant :: plants)
  | _ :: _ => Beyond
  end.

(** The parsed value as the plant collection the application takes it
    for; a value of another shape is not a collection. *)
Definition as_plants (j : json) : result (list (gmap string value)) :=
  match j with
  | JArr items => to_plants items
  | _ => Beyond
  end.

End Json.
(** ** The collection store (App.jsx) *)

Module App.

(** What a handler reads from its host: the clock reading [Date.now()], a
    time value, and the time zone. *)
Record Env : Type := {
  now : Z;
  zone : Date.TimeZone
}.

(** [new Date().toISOString().split('T')[0]] *)
Definition today (env : Env) : string :=
  Text.split_first "T" (Date.iso (now env)).

(** [n + v] for a number [n]: [null] and booleans count as numbers,
    [undefined] gives [NaN]; with a string it is a concatenation, which is
    not modelled. *)
Definition number_plus (n : Z) (v : option value) : result (option Z) :=
  match v with
  | Some (VNum m) => Ok (Some (n + m))
  | Some VNull => Ok (Some n)
  | Some (VBool b) => Ok (Some (n + (if b then 1 else 0)))
  | None => Ok None
  | Some (VStr _) => Beyond
  end.

(** [const nextDate = new Date();
     nextDate.setDate(nextDate.getDate() + frequency);
     return nextDate.toISOString().split('T')[0];] *)
Definition calculateNextWatering (env : Env) (frequency : option value)
    : result string :=
  let nextDate := now env in
  dt ← number_plus (Date.getDate (zone env) nextDate) frequency;
  let nextDate := Date.setDate (zone env) nextDate dt in
  text ← Date.toISOString nextDate;
  Ok (Text.split_first "T" text).

(** [addPlant(newPlant)]: the new collection, or the exception that
    leaves the state as it was. *)
Definition addPlant (env : Env) (plants : list (gmap string value))
    (newPlant : gmap string value) : result (list (gmap string value)) :=
  nextWatering ← calculateNextWatering env (newPlant !! "wateringFrequency");
  let plantWithId :=
    <["createdAt" := VStr (today env)]>
      (<["nextWatering" := VStr nextWatering]>
         (<["lastWatered" := VStr (today env)]>
            (<["id" := VNum (now env)]> newPlant))) in
  Ok (plants ++ [plantWithId]).

(** [plants.filter(plant => plant.id !== plantId)] *)
Definition deletePlant (plants : list (gmap string value))
    (plantId : option value) : list (gmap string value) :=
  List.filter (fun plant => negb (strict_eq (plant !! "id") plantId)) plants.

(** [plants.map(plant => plant.id === plantId
                 ? { ...plant, ...updatedData } : plant)];
    in the spread the later source wins, which is the left-biased union
    with [updatedData] on the left. *)
Definition updatePlant (plants : list (gmap string value))
    (plantId : option value) (updatedData : gmap string value)
    : list (gmap string value) :=
  List.map (fun plant =>
    if strict_eq (plant !! "id") plantId then updatedData ∪ plant else plant)
    plants.

(** [waterPlant(plantId)] *)
Definition waterPlant (env : Env) (plants : list (gmap string value))
    (plantId : option value) : result (list (gmap string value)) :=
  match List.find (fun p => strict_eq (p !! "id") plantId) plants with
  | Some plant =>
      nextWatering ← calculateNextWatering env (plant !! "wateringFrequency");
      Ok (updatePlant plants plantId
            (<["nextWatering" := VStr nextWatering]>
               {[ "lastWatered" := VStr (today env) ]}))
  | None => Ok plants
  end.

(** The load effect: [savedPlants] is what
    [localStorage.getItem('plantcare-plants')] returned, [None] for
    [null]; [samplePlants] is the seed dataset of data/samplePlants.js. *)
Definition load (samplePlants : list (gmap string value))
    (savedPlants : option string) : result (list (gmap string value)) :=
  match savedPlants with
  | Some text =>
      if Text.truthy text
      then j ← Json.parse text; Json.as_plants j
      else Ok samplePlants
  | None => Ok samplePlants
  end.

(** The persist effect: the value stored under the key. *)
Definition persist (plants : list (gmap string value)) : option string :=
  Some (Json.stringify plants).

End App.
(** ** The dashboard (Dashboard.jsx) *)

Module Dashboard.

(** [plant.nextWatering <= today] and [plant.nextWatering > today], where
    [today] is [new Date().toISOString().split('T')[0]].  Two strings
    compare as texts; any other left operand makes both sides numbers, and
    the date of today is not a numeral, so the answer is [false]. *)
Definition due (env : App.Env) (plant : gmap string value) : bool :=
  match plant !! "nextWatering" with
  | Some (VStr s) => Text.le s (App.today env)
  | _ => false
  end.

Definition later (env : App.Env) (plant : gmap string value) : bool :=
  match plant !! "nextWatering" with
  | Some (VStr s) => Text.gt s (App.today env)
  | _ => false
  end.

Record Stats : Type := {
  total : nat;
  needWatering : nat;
  healthy : nat;
  warning : nat
}.

Definition stats (env : App.Env) (plants : list (gmap string value)) : Stats :=
  {| total := List.length plants;
     needWatering := List.length (List.filter (due env) plants);
     healthy := List.length (List.filter (fun plant =>
       strict_eq (plant !! "health") (Some (VStr "Excellent"))) plants);
     warning := List.length (List.filter (fun plant =>
       strict_eq (plant !! "health") (Some (VStr "Poor"))) plants) |}.


(** [a - b] on two time values; [None] is [NaN]. *)
Definition minus (x y : option Z) : option Z :=
  match x, y with
  | Some a, Some b => Some (a - b)
  | _, _ => None
  end.

(** [new Date(a.nextWatering) - new Date(b.nextWatering)] *)
Definition compare (a b : gmap string value) : result (option Z) :=
  x ← Date.of_value (a !! "nextWatering");
  y ← Date.of_value (b !! "nextWatering");
  Ok (minus x y).

(** [array.sort(cmp)]: the stable sort of the language, written as an
    insertion sort, which every stable sort agrees with on a consistent
    comparator.  An element moves behind another only when the comparator
    is positive on them.  A [NaN] outcome makes the comparator
    inconsistent and leaves the order to the implementation. *)
Fixpoint insert {A : Type} (cmp : A -> A -> result (option Z)) (x : A)
    (l : list A) : result (list A) :=
  match l with
  | [] => Ok [x]
  | y :: l' =>
      c ← cmp x y;
      match c with
      | Some c =>
          if 0 <? c then (r ← insert cmp x l'; Ok (y :: r)) else Ok (x :: l)
      | None => Beyond
      end
  end.

Fixpoint sort {A : Type} (cmp : A -> A -> result (option Z)) (l : list A)
    : result (list A) :=
  match l with
  | [] => Ok []
  | x :: l' => sorted ← sort cmp l'; insert cmp x sorted
  end.

(** [plants.filter(plant => plant.nextWatering > today)
           .sort((a, b) => new Date(a.nextWatering) - new Date(b.nextWatering))
           .slice(0, 5)] *)
Definition upcoming (env : App.Env) (plants : list (gmap string value))
    : result (list (gmap string value)) :=
  sorted ← sort compare (List.filter (later env) plants);
  Ok (List.firstn 5 sorted).

(** [Math.ceil((new Date(plant.nextWatering) - new Date())
               / (1000 * 60 * 60 * 24))].
    The clock reading is a time value.  A date read from a text, from
    [null] or from a boolean lies within 2.6e14 ms of the epoch, so its
    difference to the clock reading is an integer below 2^53, which the
    subtraction and the division of doubles treat exactly.  The difference
    of a numeric field can be larger and is then outside the integer
    model. *)
Definition daysUntil (env : App.Env) (plant : gmap string value)
    : result (option Z) :=
  x ← Date.of_value (plant !! "nextWatering");
  match minus x (Some (App.now env)) with
  | Some d =>
      match plant !! "nextWatering" with
      | Some (VNum _) =>
          if Z.abs d <=? Text.max_exact
          then Ok (Some (Date.ceil_div d (1000 * 60 * 60 * 24)))
          else Beyond
      | _ => Ok (Some (Date.ceil_div d (1000 * 60 * 60 * 24)))
      end
  | None => Ok None
  end.

End Dashboard.

(** ** The add-plant form (PlantForm.jsx) *)

Module PlantForm.

Definition initialFormData : gmap string value :=
  <["notes" := VStr ""]>
 (<["health" := VStr "Good"]>
 (<["humidity" := VStr "Medium"]>
 (<["temperature" := VStr "18-30°C"]>
 (<["sunlight" := VStr "Bright indirect"]>
 (<["wateringFrequency" := VNum 7]>
 (<["image" := VStr ""]>
 (<["type" := VStr "Indoor Tropical"]>
 {[ "name" := VStr "" ]}))))))).

(** [setFormData(prev => ({ ...prev, [field]: value }))] *)
Definition handleChange (prev : gmap string value) (field : string)
    (v : value) : gmap string value :=
  <[field := v]> prev.

(** [n || 1] for a number: [NaN] and 0 are falsy. *)
Definition or_one (n : option Z) : Z :=
  match n with
  | Some 0 | None => 1
  | Some n => n
  end.

(** The [onChange] of the watering-frequency input:
    [handleChange('wateringFrequency', parseInt(e.target.value) || 1)] *)
Definition changeWateringFrequency (prev : gmap string value)
    (input : string) : result (gmap string value) :=
  n ← Text.parseInt input;
  Ok (handleChange prev "wateringFrequency" (VNum (or_one n))).

(** [handleSubmit]: the draft handed to [onAddPlant], or [None] when the
    handler returns without calling it.  [formData.name.trim()] throws a
    TypeError when [name] is not a string. *)
Definition handleSubmit (formData : gmap string value)
    : result (option (gmap string value)) :=
  match formData !! "name" with
  | Some (VStr name) =>
      if Text.truthy (Text.trim name) then Ok (Some formData) else Ok None
  | _ => Throw TypeError
  end.

(** A submission seen from the store: [onAddPlant] is [App.addPlant]. *)
Definition submit (env : App.Env) (plants : list (gmap string value))
    (formData : gmap string value) : result (list (gmap string value)) :=
  draft ← handleSubmit formData;
  match draft with
  | Some newPlant => App.addPlant env plants newPlant
  | None => Ok plants
  end.

End PlantForm.

(** ** The plant manager (PlantManager.jsx) *)

Module PlantManager.

(** [plant[k]] as the receiver of [toLowerCase]: a TypeError unless the
    field is a string. *)
Definition text_of (plant : gmap string value) (k : string) : result string :=
  match plant !! k with
  | Some (VStr s) => Ok s
  | _ => Throw TypeError
  end.

(** [text.toLowerCase().includes(searchTerm.toLowerCase())].  The empty
    search text is its own lower case and occurs in every text, whatever
    the lower case of that text is; for any other search text the two texts
    are lowered as far as [Text.toLowerCase] goes. *)
Definition includesLowered (text searchTerm : string) : result bool :=
  if String.eqb searchTerm EmptyString then Ok true
  else
    lowered ← Text.toLowerCase text;
    term ← Text.toLowerCase searchTerm;
    Ok (Text.includes lowered term).

(** The predicate of [filteredPlants]; [||] evaluates its right operand
    only when the left one is false. *)
Definition matches (searchTerm filterType : string)
    (plant : gmap string value) : result bool :=
  name ← text_of plant "name";
  inName ← includesLowered name searchTerm;
  matchesSearch ←
    (if (inName : bool) then Ok true
     else type ← text_of plant "type"; includesLowered type searchTerm);
  let matchesType :=
    String.eqb filterType "all"
    || strict_eq (plant !! "type") (Some (VStr filterType)) in
  Ok (matchesSearch && matchesType).

(** [plants.filter(p)] for a predicate that can throw. *)
Fixpoint filter_result {A : Type} (p : A -> result bool) (l : list A)
    : result (list A) :=
  match l with
  | [] => Ok []
  | x :: l' =>
      keep ← p x; rest ← filter_result p l';
      Ok (if (keep : bool) then x :: rest else rest)
  end.

Definition filteredPlants (plants : list (gmap string value))
    (searchTerm filterType : string) : result (list (gmap string value)) :=
  filter_result (matches searchTerm filterType) plants.

(** [[...new Set(values)]]: the values in the order of their first
    occurrence; [seen] is the set built so far. *)
Fixpoint set_of (values seen : list (option value)) : list (option value) :=
  match values with
  | [] => seen
  | v :: values' =>
      set_of values' (if bool_decide (v ∈ seen) then seen else seen ++ [v])
  end.

(** [['all', ...new Set(plants.map(plant => plant.type))]] *)
Definition plantTypes (plants : list (gmap string value))
    : list (option value) :=
  Some (VStr "all")
    :: set_of ((fun plant : gmap string value => plant !! "type") <$> plants) [].

End PlantManager.

(** ** The plant card (PlantCard.jsx) *)

Module PlantCard.

(** [setEditData({...editData, [field]: e.target.value})] of the name,
    notes and health inputs. *)
Definition edit (editData : gmap string value) (field input : string)
    : gmap string value :=
  <[field := VStr input]> editData.

(** [handleSave]: [onUpdate(plant.id, editData)] with [App.updatePlant]
    for [onUpdate]. *)
Definition handleSave (plants : list (gmap string value))
    (plant editData : gmap string value) : list (gmap string value) :=
  App.updatePlant plants (plant !! "id") editData.

Definition getHealthColor (health : option value) : string :=
  if strict_eq health (Some (VStr "Excellent")) then "text-green-600 bg-green-100"
  else if strict_eq health (Some (VStr "Good")) then "text-blue-600 bg-blue-100"
  else if strict_eq health (Some (VStr "Poor")) then "text-red-600 bg-red-100"
  else "text-gray-600 bg-gray-100".

(** [daysUntilWatering]; the dashboard computes the same number for its
    upcoming list. *)
Definition daysUntilWatering (env : App.Env) (plant : gmap string value)
    : result (option Z) :=
  Dashboard.daysUntil env plant.

(** The text of the badge; [None] is [NaN]. *)
Definition badge (days : option Z) : string :=
  match days with
  | Some 0 => "Today"
  | Some 1 => "Tomorrow"
  | Some d => Text.show_Z d +:+ "d"
  | None => "NaNd"
  end.

(** The colours of the badge; a comparison with [NaN] is false. *)
Definition badgeColor (days : option Z) : string :=
  match days with
  | Some d =>
      if d <=? 2 then "bg-red-100 text-red-700"
      else if d <=? 5 then "bg-amber-100 text-amber-700"
      else "bg-green-100 text-green-700"
  | None => "bg-green-100 text-green-700"
  end.

End PlantCard.

(** ** The gallery (Gallery.jsx) *)

Module Gallery.

(** A plant with its [photos] property. *)
Record PlantWithPhotos : Type := {
  plant : gmap string value;
  photos : list (option value)
}.

Definition withPhotos (p : gmap string value) : PlantWithPhotos :=
  {| plant := p;
     photos :=
       [ Some (VStr "https://images.unsplash.com/photo-1618158807378-35769f30af82?ixlib=rb-4.1.0&ixid=M3wxMjA3fDB8MHxzZWFyY2h8MTZ8fHNlZWR8ZW58MHx8MHx8fDA%3D&auto=format&fit=crop&q=60&w=600");
         Some (VStr "https://images.unsplash.com/photo-1629096346363-b96e4d9634a1?ixlib=rb-4.1.0&ixid=M3wxMjA3fDB8MHxzZWFyY2h8Mnx8c2FwbGluZ3xlbnwwfHwwfHx8MA%3D%3D&auto=format&fit=crop&q=60&w=600");
         p !! "image" ] |}.

Definition plantsWithPhotos (plants : list (gmap string value))
    : list PlantWithPhotos :=
  withPhotos <$> plants.

(** The component state: [selectedPlant] ([None] for [null]) and
    [currentImageIndex]. *)
Record State : Type := {
  selectedPlant : option PlantWithPhotos;
  currentImageIndex : Z
}.

Definition initial : State :=
  {| selectedPlant := None; currentImageIndex := 0 |}.

Definition nextImage (st : State) : State :=
  match selectedPlant st with
  | Some selected =>
      let prev := currentImageIndex st in
      {| selectedPlant := selectedPlant st;
         currentImageIndex :=
           if prev =? Z.of_nat (List.length (photos selected)) - 1
           then 0 else prev + 1 |}
  | None => st
  end.

Definition prevImage (st : State) : State :=
  match selectedPlant st with
  | Some selected =>
      let prev := currentImageIndex st in
      {| selectedPlant := selectedPlant st;
         currentImageIndex :=
           if prev =? 0
           then Z.of_nat (List.length (photos selected)) - 1 else prev - 1 |}
  | None => st
  end.

(** What the user can do: click a row, press Enter on a row (which
    selects without resetting the index), close the modal, press an arrow,
    click a thumbnail. *)
Inductive Event : Type :=
| Click (p : gmap string value)
| Enter (p : gmap string value)
| Close
| Next
| Prev
| Thumbnail (index : nat).

(** The arrows and the thumbnails are rendered for a selected plant with
    more than one photo, and there is a thumbnail for each photo; an event
    that has no control on the screen changes nothing. *)
Definition step (st : State) (e : Event) : State :=
  match e with
  | Click p => {| selectedPlant := Some (withPhotos p); currentImageIndex := 0 |}
  | Enter p =>
      {| selectedPlant := Some (withPhotos p);
         currentImageIndex := currentImageIndex st |}
  | Close =>
      {| selectedPlant := None; currentImageIndex := currentImageIndex st |}
  | Next =>
      match selectedPlant st with
      | Some selected =>
          if (1 <? List.length (photos selected))%nat then nextImage st else st
      | None => st
      end
  | Prev =>
      match selectedPlant st with
      | Some selected =>
          if (1 <? List.length (photos selected))%nat then prevImage st else st
      | None => st
      end
  | Thumbnail index =>
      match selectedPlant st with
      | Some selected =>
          if (1 <? List.length (photos selected))%nat
             && (index <? List.length (photos selected))%nat
          then {| selectedPlant := selectedPlant st;
                  currentImageIndex := Z.of_nat index |}
          else st
      | None => st
      end
  end.

Definition run (events : list Event) : State :=
  List.fold_left step events initial.

(** [selected.photos[index]]; [None] is an index outside the array. *)
Definition shown (selected : PlantWithPhotos) (index : Z)
    : option (option value) :=
  if index <? 0 then None else photos selected !! Z.to_nat index.

End Gallery.
(** * Facts about the built-ins *)

(** Settles a closed, decidable statement by evaluating its decision. *)
Ltac evaluate := apply (bool_decide_unpack _); vm_compute; exact I.

(** Evaluates the comparisons of the goal whose operands are numerals. *)
Ltac decide_closed :=
  repeat (match goal with
          | |- context [?a <? ?b] =>
              let v := eval vm_compute in (a <? b) in
              lazymatch v with
              | true => change (a <? b) with true
              | false => change (a <? b) with false
              end
          | |- context [?a <=? ?b] =>
              let v := eval vm_compute in (a <=? b) in
              lazymatch v with
              | true => change (a <=? b) with true
              | false => change (a <=? b) with false
              end
          | |- context [?a =? ?b] =>
              let v := eval vm_compute in (a =? b) in
              lazymatch v with
              | true => change (a =? b) with true
              | false => change (a =? b) with false
              end
          end; cbv iota; cbn [orb andb negb]).

(** ** Texts *)

Section TextFacts.
Import Text.

Lemma append_nil_r (s : string) : s +:+ "" = s.
Proof. induction s as [|c s IH]; simpl; [done|by f_equal]. Qed.

Lemma append_assoc (a b c : string) : (a +:+ b) +:+ c = a +:+ (b +:+ c).
Proof. induction a as [|x a IH]; simpl; [done|by f_equal]. Qed.

Lemma free_of_nil sep : free_of sep "".
Proof. by intros r. Qed.

Lemma free_of_cons sep c s :
  c <> sep -> free_of sep s -> free_of sep (String c s).
Proof.
  intros Hc Hs r. simpl. apply Ascii.eqb_neq in Hc. rewrite Hc.
  by rewrite Hs.
Qed.

Lemma free_of_app sep a b : free_of sep a -> free_of sep b -> free_of sep (a +:+ b).
Proof. intros Ha Hb r. by rewrite append_assoc, Ha, Hb, append_assoc. Qed.

Lemma free_of_zeros k : free_of "T" (Text.zeros k).
Proof. induction k; simpl; [apply free_of_nil|by apply free_of_cons]. Qed.

Lemma free_of_uint (d : Decimal.uint) :
  free_of "T" (NilEmpty.string_of_uint d).
Proof.
  induction d; simpl; [apply free_of_nil|..]; by apply free_of_cons.
Qed.

Lemma free_of_show_N n : free_of "T" (Text.show_N n).
Proof.
  unfold Text.show_N, NilZero.string_of_uint.
  destruct (N.to_uint n); try apply free_of_uint.
  by apply free_of_cons; [|apply free_of_nil].
Qed.

Lemma free_of_pad w n : free_of "T" (Text.pad w n).
Proof. apply free_of_app; [apply free_of_zeros|apply free_of_show_N]. Qed.

End TextFacts.

(** ** Calendar and dates *)

Section DateFacts.
Import Date.

(** The calendar date of a day number leads back to that day number. *)
Lemma civil_roundtrip z :
  days_from_civil (civil_from_days z).1.1 (civil_from_days z).1.2
                  (civil_from_days z).2 = z.
Proof.
  unfold civil_from_days, days_from_civil. simpl.
  set (z' := z + 719468).
  set (era := z' / 146097). set (doe := z' mod 146097).
  assert (Hdoe : 0 <= doe < 146097) by (apply Z.mod_pos_bound; lia).
  assert (Hz : z' = 146097 * era + doe) by (apply Z.div_mod; lia).
  set (yoe := (doe - doe / 1460 + doe / 36524 - doe / 146096) / 365).
  assert (Hyoe : 0 <= yoe <= 399)
    by (unfold yoe; Z.div_mod_to_equations; lia).
  set (doy := doe - (365 * yoe + yoe / 4 - yoe / 100)).
  assert (Hdoy : 0 <= doy <= 365)
    by (unfold doy, yoe; Z.div_mod_to_equations; lia).
  set (mp := (5 * doy + 2) / 153).
  assert (Hmp : 0 <= mp <= 11) by (unfold mp; Z.div_mod_to_equations; lia).
  destruct (mp <? 10) eqn:E.
  - apply Z.ltb_lt in E.
    replace (mp + 3 <=? 2) with false by (symmetry; apply Z.leb_gt; lia).
    replace (2 <? mp + 3) with true by (symmetry; apply Z.ltb_lt; lia).
    replace (mp + 3 - 3) with mp by lia.
    replace ((yoe + era * 400) / 400) with era
      by (Z.div_mod_to_equations; lia).
    replace ((yoe + era * 400) mod 400) with yoe
      by (Z.div_mod_to_equations; lia).
    unfold doy in *. lia.
  - apply Z.ltb_ge in E.
    replace (mp - 9 <=? 2) with true by (symmetry; apply Z.leb_le; lia).
    replace (2 <? mp - 9) with false by (symmetry; apply Z.ltb_ge; lia).
    replace (mp - 9 + 9) with mp by lia.
    replace (yoe + era * 400 + 1 - 1) with (yoe + era * 400) by lia.
    replace ((yoe + era * 400) / 400) with era
      by (Z.div_mod_to_equations; lia).
    replace ((yoe + era * 400) mod 400) with yoe
      by (Z.div_mod_to_equations; lia).
    unfold doy in *. lia.
Qed.

Lemma civil_month_range z : 1 <= (civil_from_days z).1.2 <= 12.
Proof.
  unfold civil_from_days. simpl.
  set (z' := z + 719468). set (doe := z' mod 146097).
  assert (Hdoe : 0 <= doe < 146097) by (apply Z.mod_pos_bound; lia).
  set (yoe := (doe - doe / 1460 + doe / 36524 - doe / 146096) / 365).
  set (doy := doe - (365 * yoe + yoe / 4 - yoe / 100)).
  assert (Hdoy : 0 <= doy <= 365)
    by (unfold doy, yoe; Z.div_mod_to_equations; lia).
  set (mp := (5 * doy + 2) / 153).
  assert (Hmp : 0 <= mp <= 11) by (unfold mp; Z.div_mod_to_equations; lia).
  destruct (mp <? 10) eqn:E; [apply Z.ltb_lt in E|apply Z.ltb_ge in E]; lia.
Qed.

Lemma days_from_civil_shift y m d k :
  days_from_civil y m (d + k) = days_from_civil y m d + k.
Proof. unfold days_from_civil. lia. Qed.

(** Moving the day of the month by [k] moves the day number by [k]. *)
Lemma MakeDay_shift t k :
  MakeDay (YearFromTime t) (MonthFromTime t) (DateFromTime t + k) = Day t + k.
Proof.
  unfold MakeDay, YearFromTime, MonthFromTime, DateFromTime.
  pose proof (civil_month_range (Day t)) as Hm.
  pose proof (civil_roundtrip (Day t)) as Hr.
  set (c := civil_from_days (Day t)) in *.
  replace ((c.1.2 - 1) / 12) with 0 by (Z.div_mod_to_equations; lia).
  replace ((c.1.2 - 1) mod 12 + 1) with c.1.2
    by (Z.div_mod_to_equations; lia).
  rewrite Z.add_0_r.
  replace 1 with (c.2 + (1 - c.2)) at 1 by lia.
  rewrite days_from_civil_shift, Hr. lia.
Qed.

Lemma Day_shift t k : Day (t + k * msPerDay) = Day t + k.
Proof. unfold Day, msPerDay. by rewrite Z.div_add. Qed.

Lemma day_and_time t : MakeDate (Day t) (TimeWithinDay t) = t.
Proof.
  unfold MakeDate, Day, TimeWithinDay, msPerDay.
  pose proof (Z.div_mod t 86400000). lia.
Qed.

(** [setDate(getDate() + k)] when the offset read back at the new local
    time is the offset in force now: the time value moves by [k] days. *)
Lemma setDate_getDate_stable tz t k :
  steady tz t k ->
  setDate tz t (Some (getDate tz t + k)) = TimeClip (t + k * msPerDay).
Proof.
  unfold steady. intros Hoff. unfold setDate, getDate. f_equal.
  rewrite MakeDay_shift.
  assert (MakeDate (Day (LocalTime tz t) + k) (TimeWithinDay (LocalTime tz t))
          = LocalTime tz t + k * msPerDay) as ->.
  { pose proof (day_and_time (LocalTime tz t)) as H.
    unfold MakeDate in *. lia. }
  unfold UTC. rewrite Hoff. unfold LocalTime. lia.
Qed.

Lemma TimeClip_in_range t : in_range t -> TimeClip t = Some t.
Proof.
  unfold in_range, TimeClip. intros H. apply Z.leb_le in H. by rewrite H.
Qed.

Lemma TimeClip_out_of_range t : ~ in_range t -> TimeClip t = None.
Proof.
  unfold in_range, TimeClip. intros H.
  destruct (Z.abs t <=? 8640000000000000) eqn:E; [|done].
  apply Z.leb_le in E. contradiction.
Qed.

Lemma free_of_year_string y : Text.free_of "T" (year_string y).
Proof.
  unfold year_string. destruct (_ && _); [apply free_of_pad|].
  apply free_of_cons; [by destruct (y <? 0)|apply free_of_pad].
Qed.

Lemma free_of_date_string day : Text.free_of "T" (date_string day).
Proof.
  unfold date_string. destruct (civil_from_days day) as [[y m] d].
  apply free_of_app; [apply free_of_year_string|].
  apply (free_of_cons "T" "-"); [done|].
  apply free_of_app; [apply free_of_pad|].
  apply (free_of_cons "T" "-"); [done|]. apply free_of_pad.
Qed.

(** The date part of an ISO time stamp is the calendar date of its day. *)
Lemma iso_date_part t :
  Text.split_first "T" (iso t) = date_string (Day t).
Proof.
  unfold iso. rewrite free_of_date_string. simpl. apply append_nil_r.
Qed.

Lemma today_date env : App.today env = date_string (Day (App.now env)).
Proof. apply iso_date_part. Qed.

(** The next-watering computation on a host whose offset does not change
    between now and the same local time [f] days later. *)
Lemma calculateNextWatering_stable env f :
  steady (App.zone env) (App.now env) f ->
  in_range (App.now env + f * msPerDay) ->
  App.calculateNextWatering env (Some (VNum f))
    = Ok (date_string (Day (App.now env) + f)).
Proof.
  intros Hoff Hrange.
  unfold App.calculateNextWatering, App.number_plus, mbind, result_bind.
  rewrite setDate_getDate_stable, TimeClip_in_range by done.
  unfold toISOString. by rewrite iso_date_part, Day_shift.
Qed.

Lemma steady_fixed_zone offset t k : steady (fixed_zone offset) t k.
Proof. reflexivity. Qed.

End DateFacts.
(** ** The calendar and the text of dates *)

Section CalendarFacts.
Import Date.

Lemma days_in_month_cases y m :
  1 <= m <= 12 ->
  days_in_month y m =
    if m =? 2 then
      (if (y mod 4 =? 0) && (negb (y mod 100 =? 0) || (y mod 400 =? 0))
       then 29 else 28)
    else if (m =? 4) || (m =? 6) || (m =? 9) || (m =? 11) then 30 else 31.
Proof. reflexivity. Qed.

(** The calendar date of a day number is a date of the calendar: its day
    lies within its month. *)
Lemma civil_day_range z :
  1 <= (civil_from_days z).2
    <= days_in_month (civil_from_days z).1.1 (civil_from_days z).1.2.
Proof.
  unfold civil_from_days, days_in_month, is_leap. simpl.
  set (z' := z + 719468).
  set (era := z' / 146097). set (doe := z' mod 146097).
  assert (Hdoe : 0 <= doe < 146097) by (apply Z.mod_pos_bound; lia).
  set (yoe := (doe - doe / 1460 + doe / 36524 - doe / 146096) / 365).
  assert (Hyoe : 0 <= yoe <= 399)
    by (unfold yoe; Z.div_mod_to_equations; lia).
  set (doy := doe - (365 * yoe + yoe / 4 - yoe / 100)).
  assert (Hdoy : 0 <= doy <= 365)
    by (unfold doy, yoe; Z.div_mod_to_equations; lia).
  assert (Hleap : doy = 365 ->
            (yoe + 1) mod 4 = 0 /\ ((yoe + 1) mod 100 <> 0 \/ yoe = 399))
    by (unfold doy, yoe; Z.div_mod_to_equations; lia).
  clearbody doy. clear Hdoe. clearbody yoe era.
  set (mp := (5 * doy + 2) / 153).
  assert (Hmp : 153 * mp <= 5 * doy + 2 < 153 * mp + 153)
    by (unfold mp; Z.div_mod_to_equations; lia).
  clearbody mp.
  assert (mp = 0 \/ mp = 1 \/ mp = 2 \/ mp = 3 \/ mp = 4 \/ mp = 5 \/ mp = 6 \/
          mp = 7 \/ mp = 8 \/ mp = 9 \/ mp = 10 \/ mp = 11) as Hcases by lia.
  repeat (destruct Hcases as [->|Hcases]); [..|subst mp];
    decide_closed; try (Z.div_mod_to_equations; lia).
  destruct (Z.eqb_spec ((yoe + era * 400 + 1) mod 4) 0) as [H4|H4];
    destruct (Z.eqb_spec ((yoe + era * 400 + 1) mod 100) 0) as [H100|H100];
    destruct (Z.eqb_spec ((yoe + era * 400 + 1) mod 400) 0) as [H400|H400];
    cbn [orb andb negb];
    (split; [Z.div_mod_to_equations; lia|]);
    try (Z.div_mod_to_equations; lia);
    (assert (doy <> 365) by (intros Hd; destruct (Hleap Hd) as [L4 L100];
                             revert H4 H100 H400 L4 L100;
                             Z.div_mod_to_equations; lia));
    Z.div_mod_to_equations; lia.
Qed.

(** A day number within the years 0 to 9999. *)
Lemma civil_year_range z :
  -719528 <= z <= 2932896 -> 0 <= (civil_from_days z).1.1 <= 9999.
Proof.
  intros Hz.
  pose proof (civil_roundtrip z) as Hr.
  pose proof (civil_month_range z) as Hm.
  pose proof (civil_day_range z) as Hd.
  destruct (civil_from_days z) as [[y m] d]. cbn [fst snd] in *.
  assert (d <= 31) by (unfold days_in_month in Hd;
                       repeat match type of Hd with
                              | context [if ?b then _ else _] => destruct b
                              end; lia).
  unfold days_from_civil in Hr.
  destruct (m <=? 2) eqn:E1; destruct (2 <? m) eqn:E2;
    try (apply Z.leb_le in E1); try (apply Z.leb_gt in E1);
    try (apply Z.ltb_lt in E2); try (apply Z.ltb_ge in E2); try lia;
    revert Hr; Z.div_mod_to_equations; lia.
Qed.

End CalendarFacts.
Section DateTextFacts.
Import Date.

Lemma digit_of_code (k : Z) :
  0 <= k <= 9 -> digit (ascii_of_N (Z.to_N (48 + k))) = Some k.
Proof.
  intros H.
  assert (k = 0 \/ k = 1 \/ k = 2 \/ k = 3 \/ k = 4 \/ k = 5 \/ k = 6 \/
          k = 7 \/ k = 8 \/ k = 9) as Hk by lia.
  repeat (destruct Hk as [->|Hk]); [..|subst k]; reflexivity.
Qed.

(** Two-digit and four-digit fields, digit by digit. *)
Lemma pad_two (n : Z) :
  0 <= n <= 99 ->
  Text.pad 2 n =
    String (ascii_of_N (Z.to_N (48 + n / 10)))
      (String (ascii_of_N (Z.to_N (48 + n mod 10))) EmptyString).
Proof.
  intros Hn.
  assert (forallb (fun k : nat =>
            String.eqb (Text.pad 2 (Z.of_nat k))
              (String (ascii_of_N (Z.to_N (48 + Z.of_nat k / 10)))
                 (String (ascii_of_N (Z.to_N (48 + Z.of_nat k mod 10)))
                    EmptyString)))
            (List.seq 0 (Z.to_nat 100)) = true) as Hall
    by (vm_compute; reflexivity).
  rewrite forallb_forall in Hall.
  specialize (Hall (Z.to_nat n)). rewrite Z2Nat.id in Hall by lia.
  apply String.eqb_eq, Hall, in_seq. lia.
Qed.

Lemma pad_four (n : Z) :
  0 <= n <= 9999 ->
  Text.pad 4 n =
    String (ascii_of_N (Z.to_N (48 + n / 1000)))
      (String (ascii_of_N (Z.to_N (48 + n / 100 mod 10)))
         (String (ascii_of_N (Z.to_N (48 + n / 10 mod 10)))
            (String (ascii_of_N (Z.to_N (48 + n mod 10))) EmptyString))).
Proof.
  intros Hn.
  assert (forallb (fun q : nat => forallb (fun r : nat =>
            let k := 100 * Z.of_nat q + Z.of_nat r in
            String.eqb (Text.pad 4 k)
              (String (ascii_of_N (Z.to_N (48 + k / 1000)))
                 (String (ascii_of_N (Z.to_N (48 + k / 100 mod 10)))
                    (String (ascii_of_N (Z.to_N (48 + k / 10 mod 10)))
                       (String (ascii_of_N (Z.to_N (48 + k mod 10)))
                          EmptyString)))))
            (List.seq 0 (Z.to_nat 100))) (List.seq 0 (Z.to_nat 100)) = true)
    as Hall by (vm_compute; reflexivity).
  rewrite forallb_forall in Hall.
  specialize (Hall (Z.to_nat (n / 100))).
  rewrite forallb_forall in Hall.
  specialize (Hall ltac:(apply in_seq; Z.div_mod_to_equations; lia)
                   (Z.to_nat (n mod 100))
                   ltac:(apply in_seq; Z.div_mod_to_equations; lia)).
  cbv zeta in Hall. rewrite !Z2Nat.id in Hall by (Z.div_mod_to_equations; lia).
  replace (100 * (n / 100) + n mod 100) with n in Hall
    by (Z.div_mod_to_equations; lia).
  by apply String.eqb_eq.
Qed.

(** The application reads back the dates it writes: the text of a day
    within the years 0 to 9999 is parsed as the midnight of that day. *)
Lemma parse_date_string (day : Z) :
  -719528 <= day <= 2932896 ->
  parse (date_string day) = Some (day * msPerDay).
Proof.
  intros Hday. unfold date_string.
  pose proof (civil_roundtrip day) as Hr.
  pose proof (civil_month_range day) as Hm.
  pose proof (civil_day_range day) as Hd.
  pose proof (civil_year_range day Hday) as Hy.
  destruct (civil_from_days day) as [[y m] d]. cbn [fst snd] in *.
  assert (d <= 31) by (unfold days_in_month in Hd;
                       repeat match type of Hd with
                              | context [if ?b then _ else _] => destruct b
                              end; lia).
  unfold year_string.
  assert ((0 <=? y) && (y <=? 9999) = true) as ->
    by (apply andb_true_iff; split; apply Z.leb_le; lia).
  rewrite pad_four, !pad_two by lia. cbn [String.append].
  unfold parse.
  rewrite !digit_of_code by (Z.div_mod_to_equations; lia).
  cbn [mbind option_bind].
  replace (1000 * (y / 1000) + 100 * (y / 100 mod 10) + 10 * (y / 10 mod 10)
           + y mod 10) with y by (Z.div_mod_to_equations; lia).
  replace (10 * (m / 10) + m mod 10) with m by (Z.div_mod_to_equations; lia).
  replace (10 * (d / 10) + d mod 10) with d by (Z.div_mod_to_equations; lia).
  assert ((1 <=? m) && (m <=? 12) && (1 <=? d) && (d <=? days_in_month y m) = true)
    as ->.
  { rewrite !andb_true_iff. repeat split; apply Z.leb_le; lia. }
  by rewrite Hr.
Qed.

End DateTextFacts.

Section OrderFacts.
Import Date.

Lemma month_start_next y m :
  1 <= m <= 11 ->
  days_from_civil y (m + 1) 1 = days_from_civil y m 1 + days_in_month y m.
Proof.
  intros Hm. unfold days_from_civil, days_in_month, is_leap.
  assert (m = 1 \/ m = 2 \/ m = 3 \/ m = 4 \/ m = 5 \/ m = 6 \/ m = 7 \/
          m = 8 \/ m = 9 \/ m = 10 \/ m = 11) as Hcases by lia.
  repeat (destruct Hcases as [->|Hcases]); [..|subst m];
    decide_closed; try (Z.div_mod_to_equations; lia).
  destruct (Z.eqb_spec (y mod 4) 0) as [H4|H4];
    destruct (Z.eqb_spec (y mod 100) 0) as [H100|H100];
    destruct (Z.eqb_spec (y mod 400) 0) as [H400|H400];
    cbn [orb andb negb]; revert H4 H100 H400; Z.div_mod_to_equations; lia.
Qed.

Lemma year_start_next y :
  days_from_civil (y + 1) 1 1 = days_from_civil y 12 1 + 31.
Proof.
  unfold days_from_civil. decide_closed.
  replace (y + 1 - 1) with y by lia. Z.div_mod_to_equations; lia.
Qed.

Lemma days_in_month_positive y m : 28 <= days_in_month y m <= 31.
Proof.
  unfold days_in_month.
  repeat match goal with
         | |- context [if ?b then _ else _] => destruct b
         end; lia.
Qed.

(** The first days of the months of a year, and of the years, are in
    ascending order. *)
Lemma month_start_mono y m m' :
  1 <= m -> m <= m' -> m' <= 12 ->
  days_from_civil y m 1 + (if m =? m' then 0 else days_in_month y m)
    <= days_from_civil y m' 1.
Proof.
  intros Hm Hle Hm'.
  assert (exists k : nat, m' = m + Z.of_nat k) as [k ->]
    by (exists (Z.to_nat (m' - m)); lia).
  clear Hle. induction k as [|k IH].
  - rewrite Z.add_0_r, Z.eqb_refl. lia.
  - assert ((m =? m + Z.of_nat (S k)) = false) as -> by (apply Z.eqb_neq; lia).
    specialize (IH ltac:(lia)).
    replace (m + Z.of_nat (S k)) with (m + Z.of_nat k + 1) by lia.
    rewrite month_start_next by lia.
    pose proof (days_in_month_positive y (m + Z.of_nat k)).
    destruct (m =? m + Z.of_nat k) eqn:E.
    + apply Z.eqb_eq in E. rewrite <- E in *. lia.
    + lia.
Qed.

Lemma year_start_mono y y' :
  y < y' -> days_from_civil y 12 1 + 31 <= days_from_civil y' 1 1.
Proof.
  intros Hlt.
  assert (exists k : nat, y' = y + 1 + Z.of_nat k) as [k ->]
    by (exists (Z.to_nat (y' - y - 1)); lia).
  clear Hlt. induction k as [|k IH].
  - rewrite Z.add_0_r, year_start_next. lia.
  - replace (y + 1 + Z.of_nat (S k)) with (y + 1 + Z.of_nat k + 1) by lia.
    rewrite year_start_next.
    pose proof (month_start_mono (y + 1 + Z.of_nat k) 1 12
                  ltac:(lia) ltac:(lia) ltac:(lia)) as H.
    change (1 =? 12) with false in H. cbv iota in H.
    pose proof (days_in_month_positive (y + 1 + Z.of_nat k) 1). lia.
Qed.

(** Day numbers follow the order of calendar dates. *)
Lemma days_from_civil_lt y m d y' m' d' :
  1 <= m <= 12 -> 1 <= d <= days_in_month y m ->
  1 <= m' <= 12 -> 1 <= d' <= days_in_month y' m' ->
  y < y' \/ (y = y' /\ (m < m' \/ (m = m' /\ d < d'))) ->
  days_from_civil y m d < days_from_civil y' m' d'.
Proof.
  intros Hm Hd Hm' Hd' Hlex.
  rewrite <- (Z.add_0_r d'), <- (Z.add_0_r d).
  replace (d' + 0) with (1 + (d' - 1)) by lia.
  replace (d + 0) with (1 + (d - 1)) by lia.
  rewrite !days_from_civil_shift.
  destruct Hlex as [Hy|[<- [Hlt|[<- Hlt]]]].
  - pose proof (year_start_mono y y' Hy).
    pose proof (month_start_mono y m 12 ltac:(lia) ltac:(lia) ltac:(lia)) as H1.
    pose proof (month_start_mono y' 1 m' ltac:(lia) ltac:(lia) ltac:(lia)) as H2.
    pose proof (days_in_month_positive y' 1).
    pose proof (days_in_month_positive y 12).
    assert (days_in_month y 12 = 31) as H12 by reflexivity.
    destruct (m =? 12) eqn:E1; destruct (1 =? m') eqn:E2;
      try (apply Z.eqb_eq in E1; subst m);
      try (apply Z.eqb_eq in E2; subst m'); lia.
  - pose proof (month_start_mono y m m' ltac:(lia) ltac:(lia) ltac:(lia)) as H.
    assert ((m =? m') = false) as E by (apply Z.eqb_neq; lia).
    rewrite E in H. lia.
  - lia.
Qed.

End OrderFacts.

Section DateOrderFacts.
Import Date.

(** Later days have later calendar dates. *)
Lemma civil_from_days_lt a b :
  a < b ->
  let '(y, m, d) := civil_from_days a in
  let '(y', m', d') := civil_from_days b in
  y < y' \/ (y = y' /\ (m < m' \/ (m = m' /\ d < d'))).
Proof.
  intros Hab.
  pose proof (civil_roundtrip a) as Ha. pose proof (civil_roundtrip b) as Hb.
  pose proof (civil_month_range a) as Hma.
  pose proof (civil_month_range b) as Hmb.
  pose proof (civil_day_range a) as Hda. pose proof (civil_day_range b) as Hdb.
  destruct (civil_from_days a) as [[y m] d].
  destruct (civil_from_days b) as [[y' m'] d']. cbn [fst snd] in *.
  destruct (Z.lt_trichotomy y y') as [Hy|[Hy|Hy]]; [by left| |].
  - subst y'. right. split; [done|].
    destruct (Z.lt_trichotomy m m') as [Hm|[Hm|Hm]]; [by left| |].
    + subst m'. right. split; [done|].
      destruct (Z.lt_trichotomy d d') as [Hd|[Hd|Hd]]; [done| |].
      * subst d'. lia.
      * pose proof (days_from_civil_lt y m d' y m d Hmb Hdb Hma Hda). lia.
    + pose proof (days_from_civil_lt y m' d' y m d Hmb Hdb Hma Hda). lia.
  - pose proof (days_from_civil_lt y' m' d' y m d Hmb Hdb Hma Hda). lia.
Qed.

Lemma leb_refl (s : string) : String.leb s s = true.
Proof. destruct (String.leb_total s s); done. Qed.

Lemma compare_digit (a b : Z) :
  0 <= a <= 9 -> 0 <= b <= 9 ->
  Ascii.compare (ascii_of_N (Z.to_N (48 + a))) (ascii_of_N (Z.to_N (48 + b)))
    = (a ?= b).
Proof.
  intros Ha Hb. unfold Ascii.compare.
  rewrite !N_ascii_embedding by lia.
  rewrite Z2N.inj_compare by lia. apply Z.add_compare_mono_l.
Qed.

(** The text of a day within the years 0 to 9999, digit by digit. *)
Lemma date_string_digits (day : Z) :
  -719528 <= day <= 2932896 ->
  let '(y, m, d) := civil_from_days day in
  date_string day =
    String (ascii_of_N (Z.to_N (48 + y / 1000)))
   (String (ascii_of_N (Z.to_N (48 + y / 100 mod 10)))
   (String (ascii_of_N (Z.to_N (48 + y / 10 mod 10)))
   (String (ascii_of_N (Z.to_N (48 + y mod 10)))
   (String "-"
   (String (ascii_of_N (Z.to_N (48 + m / 10)))
   (String (ascii_of_N (Z.to_N (48 + m mod 10)))
   (String "-"
   (String (ascii_of_N (Z.to_N (48 + d / 10)))
   (String (ascii_of_N (Z.to_N (48 + d mod 10))) EmptyString))))))))).
Proof.
  intros Hday. unfold date_string.
  pose proof (civil_month_range day) as Hm.
  pose proof (civil_day_range day) as Hd.
  pose proof (civil_year_range day Hday) as Hy.
  destruct (civil_from_days day) as [[y m] d]. cbn [fst snd] in *.
  pose proof (days_in_month_positive y m).
  unfold year_string.
  assert ((0 <=? y) && (y <=? 9999) = true) as ->
    by (apply andb_true_iff; split; apply Z.leb_le; lia).
  by rewrite pad_four, !pad_two by lia.
Qed.

(** The texts of dates are in the order of the dates. *)
Lemma date_string_lt (a b : Z) :
  -719528 <= a -> a < b -> b <= 2932896 ->
  String.compare (date_string a) (date_string b) = Lt.
Proof.
  intros Ha Hab Hb.
  pose proof (date_string_digits a ltac:(lia)) as Hsa.
  pose proof (date_string_digits b ltac:(lia)) as Hsb.
  pose proof (civil_from_days_lt a b Hab) as Hlex.
  pose proof (civil_month_range a) as Hma.
  pose proof (civil_month_range b) as Hmb.
  pose proof (civil_day_range a) as Hda. pose proof (civil_day_range b) as Hdb.
  pose proof (civil_year_range a ltac:(lia)) as Hya.
  pose proof (civil_year_range b ltac:(lia)) as Hyb.
  destruct (civil_from_days a) as [[y m] d].
  destruct (civil_from_days b) as [[y' m'] d']. cbn [fst snd] in *.
  pose proof (days_in_month_positive y m).
  pose proof (days_in_month_positive y' m').
  rewrite Hsa, Hsb. cbn [String.compare].
  rewrite !compare_digit by (Z.div_mod_to_equations; lia).
  change (Ascii.compare "-" "-") with Eq. cbv iota.
  repeat match goal with
         | |- context [?u ?= ?v] => destruct (Z.compare_spec u v); cbv iota
         end;
    try reflexivity; exfalso; Z.div_mod_to_equations; lia.
Qed.

Lemma date_string_le (a b : Z) :
  -719528 <= a <= 2932896 -> -719528 <= b <= 2932896 ->
  Text.le (date_string a) (date_string b) = (a <=? b).
Proof.
  intros Ha Hb. unfold Text.le, String.leb.
  destruct (Z.lt_trichotomy a b) as [Hlt|[->|Hgt]].
  - rewrite date_string_lt by lia. symmetry. apply Z.leb_le. lia.
  - pose proof (leb_refl (date_string b)) as H. unfold String.leb in H.
    rewrite Z.leb_refl. exact H.
  - rewrite String.compare_antisym, date_string_lt by lia. cbn.
    symmetry. apply Z.leb_gt. lia.
Qed.

End DateOrderFacts.
(** ** The JSON built-in: reading back what was written *)

Section JsonFacts.
Import Json.

Lemma length_append (a b : string) :
  String.length (a +:+ b) = (String.length a + String.length b)%nat.
Proof. induction a as [|c a IH]; simpl; [done|by rewrite IH]. Qed.

(** An induction principle that reaches the members of arrays and
    objects. *)
Lemma json_induction (P : json -> Prop) :
  (forall v, P (JPrim v)) ->
  (forall items, Forall P items -> P (JArr items)) ->
  (forall members, Forall (fun kv => P kv.2) members -> P (JObj members)) ->
  forall j, P j.
Proof.
  intros HP HA HO. fix IH 1. intros [v|items|members].
  - apply HP.
  - apply HA. revert items. fix IHl 1. intros [|x xs].
    + constructor.
    + constructor; [apply IH|apply IHl].
  - apply HO. revert members. fix IHl 1. intros [|[k x] xs].
    + constructor.
    + constructor; [apply IH|apply IHl].
Qed.

(** *** Strings *)

Lemma parse_chars_escape_char (c : ascii) (r : string) :
  parse_chars (escape_char c +:+ r) =
    '(cs, rest) ← parse_chars r; Ok (String c cs, rest).
Proof.
  destruct c as [[] [] [] [] [] [] [] []]; reflexivity.
Qed.

Lemma parse_chars_escape (s r : string) :
  parse_chars (escape s +:+ String Text.dquote r) = Ok (s, r).
Proof.
  induction s as [|c s IH].
  - reflexivity.
  - change (escape (String c s)) with (escape_char c +:+ escape s).
    rewrite append_assoc, parse_chars_escape_char, IH.
    reflexivity.
Qed.

Lemma parse_chars_quote (s r : string) :
  parse_chars (escape s +:+ String Text.dquote EmptyString +:+ r) = Ok (s, r).
Proof. apply parse_chars_escape. Qed.

(** *** Numbers *)

Lemma delimited_cases (r : string) :
  delimited r = true ->
  r = EmptyString \/ exists r', r = String "," r' \/ r = String "]" r' \/ r = String "}" r'.
Proof.
  destruct r as [|c r']; [by left|]. simpl. intros H. right. exists r'.
  apply orb_true_iff in H as [H|H]; [apply orb_true_iff in H as [H|H]|];
    apply Ascii.eqb_eq in H; subst; auto.
Qed.

Lemma span_digits_uint (d : Decimal.uint) (r : string) :
  Text.span_digits r = (EmptyString, r) ->
  Text.span_digits (NilEmpty.string_of_uint d +:+ r)
    = (NilEmpty.string_of_uint d, r).
Proof.
  intros Hr. induction d; simpl; [done|..]; by rewrite IHd.
Qed.

Lemma span_digits_delimited (r : string) :
  delimited r = true -> Text.span_digits r = (EmptyString, r).
Proof.
  intros H. destruct (delimited_cases r H) as [->|(r' & [->|[->| ->]])];
    reflexivity.
Qed.

Lemma to_uint_nonnil (n : N) : N.to_uint n <> Decimal.Nil.
Proof.
  destruct n; simpl; [discriminate|apply DecimalPos.Unsigned.to_uint_nonnil].
Qed.

Lemma show_N_uint (n : N) : Text.show_N n = NilEmpty.string_of_uint (N.to_uint n).
Proof.
  unfold Text.show_N, NilZero.string_of_uint.
  pose proof (to_uint_nonnil n). by destruct (N.to_uint n).
Qed.

(** The first character of a decimal rendering is a digit. *)
Lemma show_N_head (n : N) :
  exists c s, Text.show_N n = String c s /\ Text.is_digit c = true.
Proof.
  rewrite show_N_uint. pose proof (to_uint_nonnil n) as H.
  destruct (N.to_uint n); [done|..]; simpl; eauto.
Qed.

Lemma parse_digits_show_N (n : N) (r : string) :
  delimited r = true ->
  parse_digits (Text.show_N n +:+ r) = Ok (Z.of_N n, r).
Proof.
  intros Hr. unfold parse_digits.
  rewrite show_N_uint, span_digits_uint by by apply span_digits_delimited.
  rewrite <- show_N_uint. unfold Text.show_N.
  rewrite NilZero.usu by apply to_uint_nonnil.
  rewrite <- (Unsigned.to_of (N.to_uint n)), !Unsigned.of_to.
  rewrite (Decimal.internal_uint_dec_lb _ _ eq_refl).
  destruct (delimited_cases r Hr) as [->|(r' & [->|[->| ->]])]; reflexivity.
Qed.

Lemma parse_number_show_Z (n : Z) (r : string) :
  delimited r = true ->
  parse_number (Text.show_Z n +:+ r) = Ok (n, r).
Proof.
  intros Hr. unfold Text.show_Z. destruct (n <? 0) eqn:E.
  - apply Z.ltb_lt in E. cbn [String.append parse_number].
    rewrite parse_digits_show_N by done.
    change (Ascii.eqb "-" "-") with true. cbn. f_equal. f_equal. lia.
  - apply Z.ltb_ge in E.
    destruct (show_N_head (Z.to_N n)) as (c & s & Hs & Hc).
    pose proof (parse_digits_show_N (Z.to_N n) r Hr) as Hp.
    rewrite Hs in *. cbn [String.append parse_number] in *.
    assert (Ascii.eqb c "-" = false) as ->.
    { apply Ascii.eqb_neq. intros ->. discriminate. }
    rewrite Hp. f_equal. f_equal. lia.
Qed.

Lemma show_Z_head (n : Z) :
  exists c s, Text.show_Z n = String c s /\ (Text.is_digit c = true \/ c = "-"%char).
Proof.
  unfold Text.show_Z. destruct (n <? 0); [by eauto|].
  destruct (show_N_head (Z.to_N n)) as (c & s & -> & Hc). eauto.
Qed.

(** *** Values *)

(** A text that starts with a digit or a minus sign is read as a number. *)
Lemma parse_value_number (fuel : nat) (c : ascii) (s : string) :
  Text.is_digit c = true \/ c = "-"%char ->
  parse_value (S fuel) (String c s) =
    '(n, r) ← parse_number (String c s); Ok (JPrim (VNum n), r).
Proof.
  intros [H| ->]; [|reflexivity].
  destruct c as [[] [] [] [] [] [] [] []]; try discriminate H; reflexivity.
Qed.

(** Where a written value starts: never with white space or a closing
    bracket. *)
Lemma print_head (j : json) (r : string) :
  exists c s, print j +:+ r = String c s /\ is_ws c = false /\
    Ascii.eqb c "]" = false /\ Ascii.eqb c "}" = false.
Proof.
  destruct j as [[| [] |n|t]|items|members]; try (by eexists _, _).
  destruct (show_Z_head n) as (c & s & Hs & Hc). cbn [print print_value].
  rewrite Hs. exists c, (s +:+ r). split; [done|].
  destruct Hc as [Hc| ->]; [|done].
  destruct c as [[] [] [] [] [] [] [] []]; try discriminate Hc; done.
Qed.

Lemma parse_value_array (fuel : nat) (j : json) (r : string) :
  parse_value (S fuel) (String "[" (print j +:+ r)) =
    '(vs, r') ← parse_items fuel (print j +:+ r); Ok (JArr vs, r').
Proof.
  destruct (print_head j r) as (c & s & -> & Hws & Hb & _).
  cbn [parse_value skip_ws is_ws]. change (is_ws "[") with false.
  cbn [skip_ws]. rewrite Hws.
  change (Ascii.eqb "[" "{") with false. change (Ascii.eqb "[" "[") with true.
  cbn iota. by rewrite Hb.
Qed.

Lemma parse_value_object (fuel : nat) (r : string) :
  parse_value (S fuel) (String "{" (String Text.dquote r)) =
    '(ms, r') ← parse_members fuel (String Text.dquote r); Ok (JObj ms, r').
Proof. reflexivity. Qed.

Lemma parse_print_fuel (fuel : nat) :
  (forall j rest,
      (weight j <= fuel)%nat -> delimited rest = true ->
      parse_value fuel (print j +:+ rest) = Ok (j, rest)) /\
  (forall x items rest,
      (list_sum (List.map (fun v => S (weight v)) (x :: items)) <= fuel)%nat ->
      parse_items fuel (join (List.map print (x :: items)) +:+ String "]" rest)
        = Ok (x :: items, rest)) /\
  (forall m members rest,
      (list_sum (List.map (fun kv : string * json => S (weight kv.2))
                   (m :: members)) <= fuel)%nat ->
      parse_members fuel
        (join (List.map (fun kv : string * json =>
                 quote kv.1 +:+ ":" +:+ print kv.2) (m :: members))
         +:+ String "}" rest)
        = Ok (m :: members, rest)).
Proof.
  induction fuel as [|fuel (IHv & IHi & IHm)].
  { split; [|split].
    - intros [v|items|members] rest H; simpl in H; lia.
    - intros x items rest H. simpl in H. lia.
    - intros m members rest H. simpl in H. lia. }
  split; [|split].
  - intros [v|items|members] rest Hw Hr.
    + destruct v as [| [] |n|t]; try reflexivity.
      * destruct (show_Z_head n) as (c & s & Hs & Hc).
        pose proof (parse_number_show_Z n rest Hr) as Hn.
        cbn [print print_value] in *. rewrite Hs in *.
        cbn [String.append] in *.
        by rewrite parse_value_number, Hn.
      * cbn [print print_value]. unfold quote. cbn [String.append].
        cbn [parse_value skip_ws]. change (is_ws Text.dquote) with false.
        cbn iota.
        change (Ascii.eqb Text.dquote "{") with false.
        change (Ascii.eqb Text.dquote "[") with false.
        change (Ascii.eqb Text.dquote Text.dquote) with true. cbn iota.
        rewrite append_assoc. cbn [String.append].
        by rewrite parse_chars_escape.
    + destruct items as [|x items]; [reflexivity|].
      cbn [print]. cbn [weight] in Hw.
      assert (forall t, ("[" +:+ t +:+ "]") +:+ rest = String "[" (t +:+ String "]" rest)) as ->.
      { intros t. cbn [String.append]. f_equal. by rewrite append_assoc. }
      assert (exists t, join (List.map print (x :: items)) +:+ String "]" rest
                        = print x +:+ t) as [t Ht].
      { cbn [List.map join]. destruct (List.map print items).
        - by eexists.
        - eexists. by rewrite append_assoc. }
      pose proof (IHi x items rest ltac:(lia)) as Hi.
      rewrite Ht in *. by rewrite parse_value_array, Hi.
    + destruct members as [|[k v] members]; [reflexivity|].
      cbn [print]. cbn [weight] in Hw.
      assert (forall t, ("{" +:+ t +:+ "}") +:+ rest = String "{" (t +:+ String "}" rest)) as ->.
      { intros t. cbn [String.append]. f_equal. by rewrite append_assoc. }
      pose proof (IHm (k, v) members rest ltac:(lia)) as Hm.
      assert (exists t, join (List.map (fun kv : string * json =>
                          quote kv.1 +:+ ":" +:+ print kv.2) ((k, v) :: members))
                        +:+ String "}" rest = String Text.dquote t) as [t Ht].
      { cbn [List.map join]. destruct (List.map _ members); by eexists. }
      rewrite Ht in *. by rewrite parse_value_object, Hm.
  - intros x items rest Hw. cbn [List.map list_sum] in Hw.
    destruct items as [|y items].
    + cbn [List.map join]. cbn [parse_items].
      rewrite IHv by (simpl in *; done || lia). reflexivity.
    + assert (join (List.map print (x :: y :: items)) +:+ String "]" rest
              = print x +:+ String "," (join (List.map print (y :: items))
                                          +:+ String "]" rest)) as ->.
      { cbn [List.map join]. by rewrite !append_assoc. }
      cbn [parse_items]. rewrite IHv by (simpl in *; done || lia).
      cbn [mbind result_bind skip_ws]. change (is_ws ",") with false.
      cbn iota. change (Ascii.eqb "," ",") with true. cbn iota.
      rewrite IHi by (simpl in *; lia). reflexivity.
  - intros [k v] members rest Hw. cbn [List.map list_sum] in Hw.
    assert (forall t,
      parse_members (S fuel)
        ((quote k +:+ ":" +:+ print v) +:+ t) =
      '(v', r3) ← parse_value fuel (print v +:+ t);
      match skip_ws r3 with
      | String c' r4 =>
          if Ascii.eqb c' "," then
            '(ms, r5) ← parse_members fuel r4; Ok ((k, v') :: ms, r5)
          else if Ascii.eqb c' "}" then Ok ([(k, v')], r4)
          else Throw SyntaxError
      | EmptyString => Throw SyntaxError
      end) as Hhead.
    { intros t. unfold quote. cbn [String.append parse_members skip_ws].
      change (is_ws Text.dquote) with false. cbn iota.
      change (Ascii.eqb Text.dquote Text.dquote) with true. cbn iota.
      rewrite !append_assoc. cbn [String.append].
      rewrite parse_chars_escape. reflexivity. }
    destruct members as [|m members].
    + cbn [List.map join fst snd]. rewrite Hhead.
      rewrite IHv by (simpl in *; done || lia). reflexivity.
    + assert (join (List.map (fun kv : string * json =>
                      quote kv.1 +:+ ":" +:+ print kv.2) ((k, v) :: m :: members))
              +:+ String "}" rest
              = (quote k +:+ ":" +:+ print v) +:+
                String "," (join (List.map (fun kv : string * json =>
                      quote kv.1 +:+ ":" +:+ print kv.2) (m :: members))
                  +:+ String "}" rest)) as ->.
      { cbn [List.map join fst snd]. by rewrite !append_assoc. }
      rewrite Hhead. rewrite IHv by (simpl in *; done || lia).
      cbn [mbind result_bind skip_ws]. change (is_ws ",") with false.
      cbn iota. change (Ascii.eqb "," ",") with true. cbn iota.
      rewrite IHm by (simpl in *; lia). reflexivity.
Qed.

Lemma print_value_nonempty (v : value) :
  (1 <= String.length (print_value v))%nat.
Proof.
  destruct v as [| [] |n|t]; simpl; try lia.
  destruct (show_Z_head n) as (c & s & -> & _). simpl. lia.
Qed.

Lemma join_length_cons (p : string) (ps : list string) :
  (String.length p <= String.length (join (p :: ps)))%nat /\
  (ps <> [] ->
   String.length (join (p :: ps)) = S (String.length p + String.length (join ps)))%nat.
Proof.
  destruct ps as [|q qs]; [split; [done|congruence]|].
  change (join (p :: q :: qs)) with (p +:+ "," +:+ join (q :: qs)).
  rewrite !length_append. cbn [String.length]. split; [lia|]. intros _. lia.
Qed.

Lemma join_weight {A : Type} (w : A -> nat) (text : A -> string) (l : list A) :
  Forall (fun x => w x <= String.length (text x))%nat l ->
  (list_sum (List.map (fun x => S (w x)) l)
   <= S (String.length (join (List.map text l))))%nat.
Proof.
  induction 1 as [|x xs Hx _ IH]; [simpl; lia|].
  cbn [List.map list_sum].
  destruct (join_length_cons (text x) (List.map text xs)) as [H1 H2].
  destruct xs as [|y ys]; [simpl in *; lia|].
  rewrite H2 by done. unfold list_sum in *. cbn [fold_right] in *. lia.
Qed.

Lemma weight_le_length (j : json) :
  (weight j <= String.length (print j))%nat.
Proof.
  induction j as [v|items IH|members IH] using json_induction.
  - apply print_value_nonempty.
  - cbn [weight print]. rewrite !length_append. cbn [String.length].
    pose proof (join_weight weight print items IH). lia.
  - cbn [weight print]. rewrite !length_append. cbn [String.length].
    pose proof (join_weight (fun kv : string * json => weight kv.2)
                  (fun kv => quote kv.1 +:+ ":" +:+ print kv.2) members) as H.
    cbv beta in H. rewrite <- Nat.succ_le_mono. rewrite Nat.add_1_r.
    etrans; [apply H|lia].
    eapply Forall_impl; [exact IH|].
    intros [k x] Hx. cbn [fst snd] in *. rewrite !length_append. lia.
Qed.

(** [JSON.parse] reads back every text the printer writes. *)
Lemma parse_print (j : json) : parse (print j) = Ok j.
Proof.
  unfold parse.
  rewrite <- (append_nil_r (print j)) at 2.
  rewrite (proj1 (parse_print_fuel _)); [reflexivity| |reflexivity].
  pose proof (weight_le_length j). lia.
Qed.

End JsonFacts.
Section PlantsJson.
Import Json.
Implicit Types (plant acc : gmap string value) (l : list (string * value)).

Lemma to_plant_members l acc :
  to_plant ((fun kv : string * value => (kv.1, JPrim kv.2)) <$> l) acc
    = Ok (fold_left (fun m kv => <[kv.1 := kv.2]> m) l acc).
Proof.
  revert acc. induction l as [|[k v] l IH]; intros acc; [done|].
  cbn [fmap list_fmap to_plant fold_left fst snd]. apply IH.
Qed.

Lemma fold_insert_distinct l acc :
  NoDup l.*1 ->
  fold_left (fun m kv => <[kv.1 := kv.2]> m) l acc = list_to_map l ∪ acc.
Proof.
  revert acc. induction l as [|[k v] l IH]; intros acc Hnd.
  - cbn. by rewrite (left_id_L ∅ (∪)).
  - cbn [fmap list_fmap fst] in Hnd. apply NoDup_cons in Hnd as [Hk Hnd].
    cbn [fold_left list_to_map foldr fst snd uncurry]. rewrite IH by done.
    rewrite <- insert_union_l. symmetry. apply insert_union_r.
    by apply not_elem_of_list_to_map_1.
Qed.

(** The members of an object, in any order in which each key occurs
    once, are read back as the map they list. *)
Lemma to_plant_distinct l :
  NoDup l.*1 ->
  to_plant ((fun kv : string * value => (kv.1, JPrim kv.2)) <$> l) ∅
    = Ok (list_to_map l).
Proof.
  intros Hnd. rewrite to_plant_members, fold_insert_distinct by done.
  by rewrite (right_id_L ∅ (∪)).
Qed.

Lemma to_plants_of_plants (plants : list (gmap string value)) :
  to_plants (of_plant <$> plants) = Ok plants.
Proof.
  induction plants as [|plant plants IH]; [done|].
  change (to_plants (of_plant <$> plant :: plants)) with
    (p ← to_plant ((fun kv : string * value => (kv.1, JPrim kv.2))
                     <$> map_to_list plant) ∅;
     ps ← to_plants (of_plant <$> plants); Ok (p :: ps)).
  rewrite to_plant_distinct by apply NoDup_fst_map_to_list.
  by rewrite list_to_map_to_list, IH.
Qed.

Lemma parse_stringify (plants : list (gmap string value)) :
  (j ← parse (stringify plants); as_plants j) = Ok plants.
Proof.
  unfold stringify. rewrite parse_print. cbn [mbind result_bind].
  apply to_plants_of_plants.
Qed.

Lemma stringify_truthy (plants : list (gmap string value)) :
  Text.truthy (stringify plants) = true.
Proof. reflexivity. Qed.

End PlantsJson.
(** ** Facts about the views *)

Section StringFacts.
Import Text.

Lemma prefix_spec (sub s : string) :
  String.prefix sub s = true <-> exists post, s = sub +:+ post.
Proof.
  revert s. induction sub as [|a sub IH]; intros s.
  - destruct s; simpl; (split; [eauto|done]).
  - destruct s as [|b s]; simpl.
    + split; [done|]. by intros [post H].
    + destruct (Ascii.ascii_dec a b) as [->|Hab].
      * rewrite IH. split; intros [post H]; exists post; congruence.
      * split; [done|]. intros [post H]. congruence.
Qed.

(** [s.includes(sub)] holds exactly when [sub] occurs inside [s]. *)
Lemma includes_spec (s sub : string) :
  includes s sub = true <-> exists pre post, s = pre +:+ sub +:+ post.
Proof.
  induction s as [|c s IH].
  - cbn [includes]. rewrite orb_false_r, prefix_spec. split.
    + intros [post H]. by exists EmptyString, post.
    + intros ([|? ?] & post & H); [by exists post|done].
  - cbn [includes]. rewrite orb_true_iff, prefix_spec, IH. split.
    + intros [[post H]|(pre & post & H)].
      * by exists EmptyString, post.
      * exists (String c pre), post. simpl. by rewrite H.
    + intros ([|c' pre] & post & H).
      * left. by exists post.
      * right. exists pre, post. simpl in H. congruence.
Qed.

Lemma includes_empty (s : string) : includes s EmptyString = true.
Proof. apply includes_spec. by exists EmptyString, s. Qed.

Lemma is_white_In (w : string) : is_white w = true <-> In w white_space.
Proof.
  unfold is_white. rewrite existsb_exists. split.
  - intros (x & Hx & E). apply String.eqb_eq in E. by subst.
  - intros H. exists w. split; [done|]. apply String.eqb_refl.
Qed.

Lemma trimStart_white (w s : string) :
  In w white_space -> trimStart (w +:+ s) = trimStart s.
Proof.
  intros H. unfold white_space in H. cbn [In] in H.
  repeat (destruct H as [<-|H]; [reflexivity|]). destruct H.
Qed.

Lemma white_nonempty (w : string) :
  In w white_space -> (0 < String.length w)%nat.
Proof.
  intros H. unfold white_space in H. cbn [In] in H.
  repeat (destruct H as [<-|H]; [cbn; lia|]). destruct H.
Qed.

(** [trimStart] either keeps the text or removes one white-space
    character and goes on. *)
Lemma trimStart_cases (s : string) :
  trimStart s = s \/
  exists w r, In w white_space /\ s = w +:+ r /\ trimStart s = trimStart r.
Proof.
  destruct s as [|a s1]; [by left|]. cbn [trimStart].
  destruct (is_white (String a EmptyString)) eqn:E1.
  { right. exists (String a EmptyString), s1. by apply is_white_In in E1. }
  destruct s1 as [|b s2]; [by left|].
  destruct (is_white (String a (String b EmptyString))) eqn:E2.
  { right. exists (String a (String b EmptyString)), s2.
    by apply is_white_In in E2. }
  destruct s2 as [|c s3]; [by left|].
  destruct (is_white (String a (String b (String c EmptyString)))) eqn:E3.
  { right. exists (String a (String b (String c EmptyString))), s3.
    by apply is_white_In in E3. }
  by left.
Qed.

Lemma trimStart_idem (s : string) : trimStart (trimStart s) = trimStart s.
Proof.
  remember (String.length s) as n eqn:Hn. revert s Hn.
  induction n as [n IH] using lt_wf_ind. intros s ->.
  destruct (trimStart_cases s) as [E|(w & r & Hw & -> & E)].
  - by rewrite !E.
  - rewrite E. apply (IH (String.length r)); [|done].
    rewrite length_append. apply white_nonempty in Hw. lia.
Qed.

Lemma trimStart_blank (s : string) : trimStart s = EmptyString <-> blank s.
Proof.
  split.
  - remember (String.length s) as n eqn:Hn. revert s Hn.
    induction n as [n IH] using lt_wf_ind. intros s -> H.
    destruct (trimStart_cases s) as [E|(w & r & Hw & -> & E)].
    + rewrite E in H. subst. constructor.
    + constructor; [done|]. apply (IH (String.length r)); [|done|congruence].
      rewrite length_append. apply white_nonempty in Hw. lia.
  - induction 1 as [|w s Hw _ IH]; [done|]. by rewrite trimStart_white.
Qed.

Lemma trimEnd_empty (s : string) :
  trimEnd s = EmptyString <-> trimStart s = EmptyString.
Proof.
  destruct s as [|c s]; [done|]. cbn [trimEnd].
  by destruct (trimStart (String c s)).
Qed.

(** [s.trim()] is empty exactly when [s] is white space throughout. *)
Lemma trim_blank (s : string) : trim s = EmptyString <-> blank s.
Proof.
  unfold trim. by rewrite trimEnd_empty, trimStart_idem, trimStart_blank.
Qed.

Lemma truthy_false (s : string) : truthy s = false <-> s = EmptyString.
Proof. destruct s; simpl; split; congruence. Qed.

Lemma toLowerCase_ascii (s : string) :
  is_ascii s = true -> toLowerCase s = Ok (lower s).
Proof. unfold toLowerCase. by intros ->. Qed.

Lemma lower_app (s t : string) : lower (s +:+ t) = lower s +:+ lower t.
Proof. induction s as [|c s IH]; [done|]. cbn. by rewrite IH. Qed.

(** A lowered text splits where the text does. *)
Lemma lower_split (s x y : string) :
  lower s = x +:+ y ->
  exists s1 s2, s = s1 +:+ s2 /\ lower s1 = x /\ lower s2 = y.
Proof.
  revert s. induction x as [|c x IH]; intros s H.
  - by exists EmptyString, s.
  - destruct s as [|a s]; [done|]. cbn in H. injection H as Ha Hs.
    destruct (IH s Hs) as (s1 & s2 & -> & H1 & H2).
    exists (String a s1), s2. cbn. by rewrite Ha, H1.
Qed.

(** Two characters have the same lower case exactly when they are the
    same or the two cases of one letter; all pairs of bytes are tried. *)
Lemma same_letter_spec (a b : ascii) :
  same_letter a b = true <-> lower_char a = lower_char b.
Proof.
  assert (forallb (fun x => forallb (fun y =>
            Bool.eqb (same_letter (ascii_of_nat x) (ascii_of_nat y))
                     (Ascii.eqb (lower_char (ascii_of_nat x))
                                (lower_char (ascii_of_nat y))))
            (List.seq 0 256)) (List.seq 0 256) = true) as H
    by (vm_compute; reflexivity).
  rewrite forallb_forall in H.
  specialize (H (nat_of_ascii a)). rewrite forallb_forall in H.
  pose proof (nat_ascii_bounded a). pose proof (nat_ascii_bounded b).
  specialize (H ltac:(apply in_seq; lia) (nat_of_ascii b) ltac:(apply in_seq; lia)).
  rewrite !ascii_nat_embedding in H. apply Bool.eqb_prop in H.
  rewrite H. apply Ascii.eqb_eq.
Qed.

Lemma equal_ignoring_case_spec (s t : string) :
  equal_ignoring_case s t = true <-> lower s = lower t.
Proof.
  revert t. induction s as [|a s IH]; intros [|b t]; cbn; try done.
  rewrite andb_true_iff, same_letter_spec, IH. split.
  - by intros [-> ->].
  - intros H. by injection H.
Qed.

(** The search on lowered texts finds what a search that ignores the case
    of letters finds. *)
Lemma includes_lower (s sub : string) :
  includes (lower s) (lower sub) = true <->
  exists pre mid post,
    s = pre +:+ mid +:+ post /\ equal_ignoring_case mid sub = true.
Proof.
  rewrite includes_spec. split.
  - intros (x & y & H).
    apply lower_split in H as (pre & r & -> & _ & H).
    apply lower_split in H as (mid & post & -> & H & _).
    exists pre, mid, post. split; [done|]. by apply equal_ignoring_case_spec.
  - intros (pre & mid & post & -> & H). apply equal_ignoring_case_spec in H.
    exists (lower pre), (lower post). by rewrite !lower_app, H.
Qed.

End StringFacts.

Section SortFacts.


Context {A : Type} (cmp : A -> A -> result (option Z)) (key : A -> Z).



End SortFacts.

Section NumeralFacts.
Import Text.

(** Reading the digits of a numeral continues the number read so far. *)
Lemma parse_digits_decimal (d : Decimal.uint) (a : Z) :
  parse_digits 10 (Some a) (NilEmpty.string_of_uint d)
    = Some (a * 10 ^ Z.of_N (DecimalPos.Unsigned.usize d) + Z.of_N (Pos.of_uint d)).
Proof.
  revert a. induction d; intros a;
    [cbn; f_equal; lia|..];
    cbn [NilEmpty.string_of_uint parse_digits];
    (match goal with
     | |- context [digit_value 10 ?c] =>
         let v := eval vm_compute in (digit_value 10 c) in
         change (digit_value 10 c) with v
     end);
    cbn [default]; rewrite IHd; f_equal;
    cbn [DecimalPos.Unsigned.usize Pos.of_uint];
    rewrite ?DecimalPos.Unsigned.of_uint_acc_rev, <- ?DecimalPos.Unsigned.of_uint_alt;
    rewrite ?N2Z.inj_add, ?N2Z.inj_mul, ?N2Z.inj_pow, ?N2Z.inj_succ;
    rewrite ?Z.pow_succ_r by lia; simpl Z.of_N; unfold id; ring.
Qed.

Lemma parse_digits_numeral (d : Decimal.uint) :
  d <> Decimal.Nil ->
  parse_digits 10 None (NilEmpty.string_of_uint d) = Some (Z.of_N (Pos.of_uint d)).
Proof.
  intros Hd. destruct d; [done|..];
    cbn [NilEmpty.string_of_uint parse_digits];
    (match goal with
     | |- context [digit_value 10 ?c] =>
         let v := eval vm_compute in (digit_value 10 c) in
         change (digit_value 10 c) with v
     end);
    cbn [default]; rewrite parse_digits_decimal; f_equal;
    cbn [Pos.of_uint];
    rewrite ?DecimalPos.Unsigned.of_uint_acc_rev, <- ?DecimalPos.Unsigned.of_uint_alt;
    rewrite ?N2Z.inj_add, ?N2Z.inj_mul, ?N2Z.inj_pow; simpl Z.of_N; ring.
Qed.

(** A decimal numeral is read as a decimal number: nothing in it is white
    space, a sign or the hexadecimal prefix. *)
Lemma trimStart_numeral (d : Decimal.uint) :
  trimStart (NilEmpty.string_of_uint d) = NilEmpty.string_of_uint d.
Proof.
  destruct d as [|d|d|d|d|d|d|d|d|d|d]; [done|..];
    cbn [NilEmpty.string_of_uint];
    destruct (NilEmpty.string_of_uint d) as [|b [|c r]]; reflexivity.
Qed.

Lemma trimStart_minus (s : string) : trimStart (String "-" s) = String "-" s.
Proof. destruct s as [|b [|c r]]; reflexivity. Qed.

Lemma parseInt_numeral (d : Decimal.uint) (n : Z) :
  d <> Decimal.Nil ->
  parse_digits 10 None (NilEmpty.string_of_uint d) = Some n ->
  n <= max_exact ->
  parseInt (NilEmpty.string_of_uint d) = Ok (Some (1 * n)).
Proof.
  intros Hd Hn Hmax. unfold parseInt. rewrite trimStart_numeral.
  apply Z.leb_le in Hmax.
  destruct d as [|d|d|d|d|d|d|d|d|d|d]; [done|..];
    try (cbn [NilEmpty.string_of_uint] in *; by rewrite Hn, Hmax).
  destruct d; cbn [NilEmpty.string_of_uint] in *; by rewrite Hn, Hmax.
Qed.

Lemma parseInt_negative_numeral (d : Decimal.uint) (n : Z) :
  d <> Decimal.Nil ->
  parse_digits 10 None (NilEmpty.string_of_uint d) = Some n ->
  n <= max_exact ->
  parseInt (String "-" (NilEmpty.string_of_uint d)) = Ok (Some (-1 * n)).
Proof.
  intros Hd Hn Hmax. unfold parseInt.
  rewrite trimStart_minus.
  apply Z.leb_le in Hmax.
  destruct d as [|d|d|d|d|d|d|d|d|d|d]; [done|..];
    try (cbn [NilEmpty.string_of_uint] in *; by rewrite Hn, Hmax).
  destruct d; cbn [NilEmpty.string_of_uint] in *; by rewrite Hn, Hmax.
Qed.

Lemma of_to_uint (n : N) : Pos.of_uint (N.to_uint n) = n.
Proof. apply DecimalN.Unsigned.of_to. Qed.

Lemma parseInt_show_N (n : N) :
  Z.of_N n <= max_exact -> parseInt (show_N n) = Ok (Some (Z.of_N n)).
Proof.
  intros Hmax. rewrite show_N_uint.
  rewrite (parseInt_numeral _ (Z.of_N n)); [f_equal; f_equal; lia|..|done].
  - apply to_uint_nonnil.
  - rewrite parse_digits_numeral by apply to_uint_nonnil. by rewrite of_to_uint.
Qed.

(** [parseInt] reads back the decimal rendering of every integer that is
    a number of JavaScript. *)
Lemma parseInt_show_Z (n : Z) :
  Z.abs n <= max_exact -> parseInt (show_Z n) = Ok (Some n).
Proof.
  intros Hmax. unfold show_Z. destruct (n <? 0) eqn:E.
  - apply Z.ltb_lt in E. rewrite show_N_uint.
    rewrite (parseInt_negative_numeral _ (- n)); [f_equal; f_equal; lia|..|lia].
    + apply to_uint_nonnil.
    + rewrite parse_digits_numeral by apply to_uint_nonnil.
      rewrite of_to_uint. f_equal. lia.
  - apply Z.ltb_ge in E. rewrite parseInt_show_N by lia. f_equal. f_equal. lia.
Qed.

End NumeralFacts.

Section ManagerFacts.
Implicit Types (plant : gmap string value).

Lemma strict_eq_text (a b : string) :
  strict_eq (Some (VStr a)) (Some (VStr b)) = String.eqb a b.
Proof.
  unfold strict_eq. destruct (String.eqb a b) eqn:E.
  - apply String.eqb_eq in E as ->. by apply bool_decide_eq_true.
  - apply String.eqb_neq in E. apply bool_decide_eq_false. congruence.
Qed.

Lemma includesLowered_ascii (text searchTerm : string) :
  Text.is_ascii text = true -> Text.is_ascii searchTerm = true ->
  PlantManager.includesLowered text searchTerm
    = Ok (Text.includes (Text.lower text) (Text.lower searchTerm)).
Proof.
  intros Ht Hs. unfold PlantManager.includesLowered.
  destruct (String.eqb searchTerm EmptyString) eqn:E.
  - apply String.eqb_eq in E as ->. cbn [Text.lower].
    by rewrite includes_empty.
  - by rewrite !toLowerCase_ascii.
Qed.


(** With the empty search text the predicate reads the name only to lower
    it, and the type only to compare it with the filter. *)
Lemma matches_no_search filterType plant name :
  plant !! "name" = Some (VStr name) ->
  PlantManager.matches EmptyString filterType plant =
    Ok (String.eqb filterType "all"
        || strict_eq (plant !! "type") (Some (VStr filterType))).
Proof.
  intros Hn. unfold PlantManager.matches, PlantManager.text_of.
  by rewrite Hn.
Qed.

Lemma filter_result_Ok {A : Type} (p : A -> result bool) (keep : A -> bool)
    (l : list A) :
  Forall (fun x => p x = Ok (keep x)) l ->
  PlantManager.filter_result p l = Ok (List.filter keep l).
Proof.
  induction 1 as [|x l Hx _ IH]; [done|].
  cbn [PlantManager.filter_result List.filter]. by rewrite Hx, IH.
Qed.

Lemma filter_true {A : Type} (l : list A) : List.filter (fun _ => true) l = l.
Proof. induction l as [|x l IH]; [done|]. cbn. by rewrite IH. Qed.

(** A text in whose lower case the lowered search text does not occur
    holds no part that equals it up to the case of letters. *)
Lemma includes_lower_false (s sub : string) :
  Text.includes (Text.lower s) (Text.lower sub) = false ->
  forall pre mid post,
    s = pre +:+ mid +:+ post -> Text.equal_ignoring_case mid sub = false.
Proof.
  intros H pre mid post Hs.
  destruct (Text.equal_ignoring_case mid sub) eqn:E; [|done].
  assert (Text.includes (Text.lower s) (Text.lower sub) = true) as H'
    by (apply includes_lower; by exists pre, mid, post).
  congruence.
Qed.

End ManagerFacts.
(** ** Facts about the store *)

Section StoreFacts.
Implicit Types (plants : list (gmap string value)) (plant : gmap string value).
Implicit Types (plantId : option value).

Lemma strict_eq_true a b : strict_eq a b = true <-> a = b.
Proof. unfold strict_eq. apply bool_decide_eq_true. Qed.

Lemma strict_eq_false a b : strict_eq a b = false <-> a <> b.
Proof. unfold strict_eq. apply bool_decide_eq_false. Qed.

Lemma spread_lookup plant (updatedData : gmap string value) (k : string) :
  (updatedData ∪ plant) !! k =
    match updatedData !! k with
    | Some v => Some v
    | None => plant !! k
    end.
Proof.
  destruct (updatedData !! k) as [v|] eqn:E.
  - by apply lookup_union_Some_l.
  - by rewrite lookup_union_r.
Qed.

Lemma updatePlant_length plants plantId u :
  List.length (App.updatePlant plants plantId u) = List.length plants.
Proof. unfold App.updatePlant. apply List.length_map. Qed.

Lemma updatePlant_lookup plants plantId u (i : nat) :
  App.updatePlant plants plantId u !! i =
    (fun plant => if strict_eq (plant !! "id") plantId then u ∪ plant else plant)
      <$> plants !! i.
Proof. unfold App.updatePlant. apply list_lookup_fmap. Qed.

Lemma deletePlant_app l1 l2 plantId :
  App.deletePlant (l1 ++ l2) plantId =
  App.deletePlant l1 plantId ++ App.deletePlant l2 plantId.
Proof. unfold App.deletePlant. apply List.filter_app. Qed.

Lemma deletePlant_absent plants plantId :
  (forall plant, In plant plants -> plant !! "id" <> plantId) ->
  App.deletePlant plants plantId = plants.
Proof.
  intros H. unfold App.deletePlant. induction plants as [|p ps IH]; [done|].
  simpl. assert (strict_eq (p !! "id") plantId = false) as ->.
  { apply strict_eq_false, H. by left. }
  simpl. f_equal. apply IH. intros q Hq. apply H. by right.
Qed.

Lemma updatePlant_absent plants plantId u :
  (forall plant, In plant plants -> plant !! "id" <> plantId) ->
  App.updatePlant plants plantId u = plants.
Proof.
  intros H. unfold App.updatePlant. induction plants as [|p ps IH]; [done|].
  simpl. assert (strict_eq (p !! "id") plantId = false) as ->.
  { apply strict_eq_false, H. by left. }
  f_equal. apply IH. intros q Hq. apply H. by right.
Qed.

(** With pairwise distinct ids, the entry at position [i] is the only one
    that carries its id. *)
Lemma distinct_ids_lookup plants (i j : nat) plant other :
  NoDup ((fun plant : gmap string value => plant !! "id") <$> plants) ->
  plants !! i = Some plant -> plants !! j = Some other ->
  other !! "id" = plant !! "id" -> i = j.
Proof.
  intros Hnd Hi Hj Hid.
  eapply NoDup_lookup; [exact Hnd| |]; rewrite list_lookup_fmap.
  - by rewrite Hi.
  - rewrite Hj. simpl. by rewrite Hid.
Qed.

Lemma updatePlant_distinct plants (i : nat) plant u :
  NoDup ((fun plant : gmap string value => plant !! "id") <$> plants) ->
  plants !! i = Some plant ->
  App.updatePlant plants (plant !! "id") u = <[i := u ∪ plant]> plants.
Proof.
  intros Hnd Hi. apply list_eq. intros j.
  rewrite updatePlant_lookup.
  destruct (decide (i = j)) as [<-|Hij].
  - rewrite list_lookup_insert_eq by by eapply lookup_lt_Some.
    rewrite Hi. simpl.
    by rewrite (proj2 (strict_eq_true _ _) eq_refl).
  - rewrite list_lookup_insert_ne by done.
    destruct (plants !! j) as [other|] eqn:Hj; [|done]. simpl.
    destruct (strict_eq (other !! "id") (plant !! "id")) eqn:E; [|done].
    apply strict_eq_true in E. destruct Hij.
    by eapply distinct_ids_lookup.
Qed.

Lemma find_absent plants plantId :
  (forall plant, In plant plants -> plant !! "id" <> plantId) ->
  List.find (fun p => strict_eq (p !! "id") plantId) plants = None.
Proof.
  intros H. induction plants as [|p ps IH]; [done|]. simpl.
  assert (strict_eq (p !! "id") plantId = false) as ->.
  { apply strict_eq_false, H. by left. }
  apply IH. intros q Hq. apply H. by right.
Qed.

Lemma find_distinct plants (i : nat) plant :
  NoDup ((fun plant : gmap string value => plant !! "id") <$> plants) ->
  plants !! i = Some plant ->
  List.find (fun p => strict_eq (p !! "id") (plant !! "id")) plants
    = Some plant.
Proof.
  revert i. induction plants as [|p ps IH]; intros i Hnd Hi; [done|].
  simpl. destruct (strict_eq (p !! "id") (plant !! "id")) eqn:E.
  - apply strict_eq_true in E. f_equal.
    assert (i = 0%nat) as ->; [|by injection Hi].
    symmetry. by eapply (distinct_ids_lookup (p :: ps) 0 i p plant).
  - destruct i as [|i].
    + injection Hi as ->. by apply strict_eq_false in E.
    + rewrite fmap_cons in Hnd. apply NoDup_cons in Hnd as [_ Hnd].
      by apply (IH i).
Qed.

(** The two dates that watering writes, as a record and as two
    assignments. *)
Lemma watered_spread plant (lastWatered nextWatering : value) :
  <["nextWatering" := nextWatering]> {[ "lastWatered" := lastWatered ]} ∪ plant
  = <["nextWatering" := nextWatering]> (<["lastWatered" := lastWatered]> plant).
Proof. by rewrite <- insert_union_l, <- insert_union_singleton_l. Qed.

End StoreFacts.

(** ** Facts about the dashboard *)

Section DashboardFacts.

Lemma le_gt_exclusive (a b : string) : Text.gt a b = negb (Text.le a b).
Proof. reflexivity. Qed.

(** For the date texts that the store writes, the comparison of texts is
    the comparison of days (years 0 to 9999). *)
Lemma due_date_string env (plant : gmap string value) (day : Z) :
  -719528 <= Date.Day (App.now env) <= 2932896 ->
  -719528 <= day <= 2932896 ->
  plant !! "nextWatering" = Some (VStr (Date.date_string day)) ->
  Dashboard.due env plant = (day <=? Date.Day (App.now env)) /\
  Dashboard.later env plant = (Date.Day (App.now env) <? day).
Proof.
  intros Hnow Hday Hnext. unfold Dashboard.due, Dashboard.later.
  rewrite Hnext, le_gt_exclusive, today_date, date_string_le by done.
  split; [done|]. by rewrite Z.ltb_antisym.
Qed.

End DashboardFacts.
(** * The specification's statements *)

(** C1.  Loading restores what the persist effect stored.  With no stored
    value, or with the empty string stored, the load effect yields the seed
    dataset; with the text that the persist effect writes for a collection
    it yields that collection again, the empty collection included. *)
Theorem load_restores_persisted
    (samplePlants plants : list (gmap string value)) :
  App.load samplePlants None = Ok samplePlants /\
  App.load samplePlants (Some EmptyString) = Ok samplePlants /\
  App.load samplePlants (App.persist plants) = Ok plants.
Proof.
  split; [done|]. split; [done|].
  unfold App.load, App.persist. rewrite stringify_truthy.
  apply parse_stringify.
Qed.

(** C1, where the statement fails: a stored text that is not JSON makes the
    load effect throw, and a stored empty collection is loaded as it is;
    neither yields the seed dataset. *)
Lemma load_unparseable_or_empty_collection :
  let rose : gmap string value := {[ "id" := VNum 1; "name" := VStr "Rose" ]} in
  App.load [rose] (Some "{oops") = Throw SyntaxError /\
  App.load [rose] (App.persist []) = Ok [] /\
  App.persist [] = Some "[]".
Proof. intros rose. repeat split; evaluate. Qed.

(** C2.  Watering with an id that no entry carries returns the collection
    unchanged.  On a collection with pairwise distinct ids, watering the
    entry at position [i], whose frequency is the number [f], on a host
    whose offset is steady over the next [f] days and while the date [f]
    days ahead is within the range of time values, sets that entry's
    [lastWatered] to the date of today and its [nextWatering] to the date
    [f] days after today, whatever the two fields held before, and changes
    nothing else. *)
Theorem waterPlant_sets_dates
    (env : App.Env) (plants : list (gmap string value)) (plantId : option value) :
  ((forall plant, In plant plants -> plant !! "id" <> plantId) ->
     App.waterPlant env plants plantId = Ok plants) /\
  (forall (i : nat) (plant : gmap string value) (f : Z),
     NoDup ((fun plant : gmap string value => plant !! "id") <$> plants) ->
     plants !! i = Some plant ->
     plant !! "id" = plantId ->
     plant !! "wateringFrequency" = Some (VNum f) ->
     Date.steady (App.zone env) (App.now env) f ->
     Date.in_range (App.now env + f * Date.msPerDay) ->
     App.waterPlant env plants plantId =
       Ok (<[i :=
              <["nextWatering" :=
                  VStr (Date.date_string (Date.Day (App.now env) + f))]>
               (<["lastWatered" :=
                    VStr (Date.date_string (Date.Day (App.now env)))]> plant)]>
             plants)).
Proof.
  split.
  - intros H. unfold App.waterPlant. by rewrite find_absent.
  - intros i plant f Hnd Hi <- Hf Hsteady Hrange. unfold App.waterPlant.
    rewrite (find_distinct plants i) by done.
    rewrite Hf, calculateNextWatering_stable by done.
    cbn [mbind result_bind]. rewrite (updatePlant_distinct plants i) by done.
    by rewrite watered_spread, today_date.
Qed.

Lemma waterPlant_sets_dates_witness :
  let env := {| App.now := 1717243200000; App.zone := Date.kolkata |} in
  let rose : gmap string value :=
    {[ "id" := VNum 1; "wateringFrequency" := VNum 3;
       "lastWatered" := VStr "2024-05-01"; "nextWatering" := VStr "2024-05-04" ]} in
  let fern : gmap string value :=
    {[ "id" := VNum 2; "wateringFrequency" := VNum 7 ]} in
  App.waterPlant env [rose; fern] (Some (VNum 1)) =
    Ok [ <["nextWatering" := VStr "2024-06-04"]>
           (<["lastWatered" := VStr "2024-06-01"]> rose); fern ].
Proof.
  intros env rose fern.
  assert (NoDup ((fun plant : gmap string value => plant !! "id")
                   <$> [rose; fern])) as Hids by evaluate.
  assert (Date.in_range (App.now env + 3 * Date.msPerDay)) as Hrange
    by (vm_compute; discriminate).
  vm_cast_no_check
    (proj2 (waterPlant_sets_dates env [rose; fern] (Some (VNum 1)))
       0%nat rose 3 Hids eq_refl eq_refl eq_refl
       (steady_fixed_zone 19800000 (App.now env) 3) Hrange).
Defined.

(** C2, where the code departs from the statement: in New York on
    2024-11-02 at 23:30 UTC, the evening before the clocks go back, watering
    the first of two plants with distinct ids, whose frequency is 1, sets
    its [lastWatered] to 2024-11-02 and its [nextWatering] to 2024-11-04,
    two days later. *)
Lemma waterPlant_across_clock_change :
  let env := {| App.now := 1730590200000; App.zone := Date.new_york_2024 |} in
  let rose : gmap string value :=
    {[ "id" := VNum 1; "wateringFrequency" := VNum 1 ]} in
  let fern : gmap string value :=
    {[ "id" := VNum 2; "wateringFrequency" := VNum 7 ]} in
  NoDup ((fun plant : gmap string value => plant !! "id") <$> [rose; fern]) /\
  App.waterPlant env [rose; fern] (Some (VNum 1)) =
    Ok [ <["nextWatering" := VStr "2024-11-04"]>
           (<["lastWatered" := VStr "2024-11-02"]> rose); fern ].
Proof. intros env rose fern. split; evaluate. Qed.

(** C3.  On a host whose offset is steady over the next [f] days, adding a
    draft whose frequency is the number [f] appends one entry behind the
    entries already there: the draft with [id] set to the clock reading,
    [lastWatered] and [createdAt] set to the date of today and
    [nextWatering] set to the date [f] days after today. *)
Theorem addPlant_appends_entry
    (env : App.Env) (plants : list (gmap string value))
    (newPlant : gmap string value) (f : Z) :
  newPlant !! "wateringFrequency" = Some (VNum f) ->
  Date.steady (App.zone env) (App.now env) f ->
  Date.in_range (App.now env + f * Date.msPerDay) ->
  App.addPlant env plants newPlant =
    Ok (plants ++
        [ <["createdAt" := VStr (Date.date_string (Date.Day (App.now env)))]>
           (<["nextWatering" :=
                VStr (Date.date_string (Date.Day (App.now env) + f))]>
           (<["lastWatered" := VStr (Date.date_string (Date.Day (App.now env)))]>
           (<["id" := VNum (App.now env)]> newPlant))) ]).
Proof.
  intros Hf Hsteady Hrange. unfold App.addPlant.
  rewrite Hf, calculateNextWatering_stable by done.
  cbn [mbind result_bind]. by rewrite today_date.
Qed.

Lemma addPlant_appends_entry_witness :
  let env := {| App.now := 1717243200000; App.zone := Date.kolkata |} in
  let rose : gmap string value := {[ "id" := VNum 1; "name" := VStr "Rose" ]} in
  let draft : gmap string value :=
    {[ "name" := VStr "Fern"; "wateringFrequency" := VNum 7 ]} in
  App.addPlant env [rose] draft =
    Ok [ rose;
         <["createdAt" := VStr "2024-06-01"]>
           (<["nextWatering" := VStr "2024-06-08"]>
           (<["lastWatered" := VStr "2024-06-01"]>
           (<["id" := VNum 1717243200000]> draft))) ].
Proof.
  intros env rose draft.
  assert (Date.in_range (App.now env + 7 * Date.msPerDay)) as Hrange
    by (vm_compute; discriminate).
  vm_cast_no_check
    (addPlant_appends_entry env [rose] draft 7 eq_refl
       (steady_fixed_zone 19800000 (App.now env) 7) Hrange).
Defined.

(** C3, where the code departs from the statement: in New York on
    2024-11-02 at 23:30 UTC, the evening before the clocks go back, a draft
    with frequency 1 gets the next watering 2024-11-04, two days after its
    [lastWatered] date 2024-11-02. *)
Lemma addPlant_across_clock_change :
  let env := {| App.now := 1730590200000; App.zone := Date.new_york_2024 |} in
  let draft : gmap string value :=
    {[ "name" := VStr "Fern"; "wateringFrequency" := VNum 1 ]} in
  App.addPlant env [] draft =
    Ok [ <["createdAt" := VStr "2024-11-02"]>
           (<["nextWatering" := VStr "2024-11-04"]>
           (<["lastWatered" := VStr "2024-11-02"]>
           (<["id" := VNum 1730590200000]> draft))) ].
Proof. intros env draft. evaluate. Qed.

(** C4.  For a frequency [f] from 1 to 30, on a host whose offset is steady
    over the next [f] days, the next-watering computation yields the date
    [f] days after the date of today; it is a function of the clock reading
    and the frequency, so repeating it with the same inputs repeats the
    result. *)
Theorem calculateNextWatering_adds_days (env : App.Env) (f : Z) :
  1 <= f <= 30 ->
  Date.steady (App.zone env) (App.now env) f ->
  Date.in_range (App.now env + f * Date.msPerDay) ->
  App.today env = Date.date_string (Date.Day (App.now env)) /\
  App.calculateNextWatering env (Some (VNum f))
    = Ok (Date.date_string (Date.Day (App.now env) + f)).
Proof.
  intros _ Hsteady Hrange. split; [apply today_date|].
  by apply calculateNextWatering_stable.
Qed.

Lemma calculateNextWatering_adds_days_witness :
  let env := {| App.now := 1717243200000; App.zone := Date.kolkata |} in
  App.today env = "2024-06-01" /\
  App.calculateNextWatering env (Some (VNum 30)) = Ok "2024-07-01".
Proof.
  intros env.
  assert (1 <= 30 <= 30) as Hf by lia.
  assert (Date.in_range (App.now env + 30 * Date.msPerDay)) as Hrange
    by (vm_compute; discriminate).
  vm_cast_no_check
    (calculateNextWatering_adds_days env 30 Hf
       (steady_fixed_zone 19800000 (App.now env) 30) Hrange).
Defined.

(** C4, where the code departs from the statement: in New York, with
    frequency 1, the computation yields the date two days after today on
    the evening before the clocks go back, and the date of today itself in
    the hour before the clocks go forward. *)
Lemma calculateNextWatering_across_clock_change :
  let autumn := {| App.now := 1730590200000; App.zone := Date.new_york_2024 |} in
  let spring := {| App.now := 1710030600000; App.zone := Date.new_york_2024 |} in
  App.today autumn = "2024-11-02" /\
  App.calculateNextWatering autumn (Some (VNum 1)) = Ok "2024-11-04" /\
  App.today spring = "2024-03-10" /\
  App.calculateNextWatering spring (Some (VNum 1)) = Ok "2024-03-10".
Proof. intros autumn spring. repeat split; evaluate. Qed.

(** C5.  [updatePlant] keeps the length of the collection; at every position
    an entry whose id equals the given id becomes the merge in which each
    field supplied by the partial record takes the supplied value and every
    other field keeps its prior value, and an entry with a different id stays
    as it was, at the same position. *)
Theorem updatePlant_merges_supplied_fields
    (plants : list (gmap string value)) (plantId : option value)
    (updatedData : gmap string value) :
  List.length (App.updatePlant plants plantId updatedData) = List.length plants /\
  forall (i : nat) (plant : gmap string value),
    plants !! i = Some plant ->
    (plant !! "id" = plantId ->
       exists plant', App.updatePlant plants plantId updatedData !! i = Some plant' /\
         (forall k v, updatedData !! k = Some v -> plant' !! k = Some v) /\
         (forall k, updatedData !! k = None -> plant' !! k = plant !! k)) /\
    (plant !! "id" <> plantId ->
       App.updatePlant plants plantId updatedData !! i = Some plant).
Proof.
  split; [apply updatePlant_length|].
  intros i plant Hi. rewrite updatePlant_lookup, Hi. simpl. split.
  - intros Hid. apply strict_eq_true in Hid. rewrite Hid.
    exists (updatedData ∪ plant). split; [done|]. split.
    + intros k v Hk. by rewrite spread_lookup, Hk.
    + intros k Hk. by rewrite spread_lookup, Hk.
  - intros Hid. apply strict_eq_false in Hid. by rewrite Hid.
Qed.

Lemma updatePlant_merges_supplied_fields_witness :
  let rose : gmap string value :=
    {[ "id" := VNum 1; "name" := VStr "Rose"; "health" := VStr "Good" ]} in
  let fern : gmap string value := {[ "id" := VNum 2; "name" := VStr "Fern" ]} in
  let u : gmap string value := {[ "health" := VStr "Poor" ]} in
  App.updatePlant [rose; fern] (Some (VNum 1)) u !! 1%nat = Some fern.
Proof.
  intros rose fern u.
  apply (proj2 (proj2 (updatePlant_merges_supplied_fields
                         [rose; fern] (Some (VNum 1)) u) 1%nat fern eq_refl)).
  vm_compute. discriminate.
Defined.

(** C6.  On a collection whose ids are pairwise distinct, [deletePlant]
    removes exactly the entry carrying the id and keeps every other entry in
    its relative order; when no entry carries the id the collection is
    returned unchanged. *)
Theorem deletePlant_removes_exactly
    (plants : list (gmap string value)) (plantId : option value) :
  NoDup ((fun plant : gmap string value => plant !! "id") <$> plants) ->
  (forall before plant after,
      plants = before ++ plant :: after -> plant !! "id" = plantId ->
      App.deletePlant plants plantId = before ++ after) /\
  ((forall plant, In plant plants -> plant !! "id" <> plantId) ->
      App.deletePlant plants plantId = plants).
Proof.
  intros Hnd. split; [|apply deletePlant_absent].
  intros before plant after -> Hid.
  rewrite fmap_app, fmap_cons in Hnd.
  apply NoDup_app in Hnd as (_ & Hdisj & Hnd2).
  apply NoDup_cons in Hnd2 as [Hnotin _].
  rewrite deletePlant_app. unfold App.deletePlant at 2. simpl.
  assert (strict_eq (plant !! "id") plantId = true) as ->
    by by apply strict_eq_true.
  simpl. f_equal.
  - apply deletePlant_absent. intros q Hq Heq.
    apply (Hdisj (q !! "id")).
    + apply list_elem_of_fmap. exists q. split; [done|by apply list_elem_of_In].
    + rewrite Heq, <- Hid. left.
  - apply deletePlant_absent. intros q Hq Heq. apply Hnotin.
    rewrite Hid, <- Heq. apply list_elem_of_fmap. exists q.
    split; [done|by apply list_elem_of_In].
Qed.

Lemma deletePlant_removes_exactly_witness :
  let rose : gmap string value := {[ "id" := VNum 1; "name" := VStr "Rose" ]} in
  let fern : gmap string value := {[ "id" := VNum 2; "name" := VStr "Fern" ]} in
  let mint : gmap string value := {[ "id" := VNum 3; "name" := VStr "Mint" ]} in
  App.deletePlant [rose; fern; mint] (Some (VNum 2)) = [rose; mint].
Proof.
  intros rose fern mint.
  refine (proj1 (deletePlant_removes_exactly [rose; fern; mint] (Some (VNum 2)) _)
            [rose] fern [mint] eq_refl eq_refl).
  apply (bool_decide_unpack _). vm_compute. exact I.
Defined.

(** C10.  When no entry carries the id, [updatePlant] returns the collection
    unchanged, whatever the partial record. *)
Theorem updatePlant_unknown_id_unchanged
    (plants : list (gmap string value)) (plantId : option value)
    (updatedData : gmap string value) :
  (forall plant, In plant plants -> plant !! "id" <> plantId) ->
  App.updatePlant plants plantId updatedData = plants.
Proof.
  intros H. unfold App.updatePlant. induction plants as [|p ps IH]; [done|].
  simpl. assert (strict_eq (p !! "id") plantId = false) as ->.
  { apply strict_eq_false, H. by left. }
  f_equal. apply IH. intros q Hq. apply H. by right.
Qed.

Lemma updatePlant_unknown_id_unchanged_witness :
  let rose : gmap string value := {[ "id" := VNum 1; "name" := VStr "Rose" ]} in
  App.updatePlant [rose] (Some (VNum 7)) {[ "name" := VStr "Tulip" ]} = [rose].
Proof.
  intros rose.
  apply (updatePlant_unknown_id_unchanged [rose] (Some (VNum 7))).
  intros plant [<-|[]]. vm_compute. discriminate.
Defined.

(** C7.  A submission whose name is white space throughout, the empty name
    included, hands nothing to the store: the collection stays as it was.
    Any other name hands the form data to [addPlant] as they are, whatever
    the frequency in them.  The frequency field takes what [parseInt] reads
    from the input: the integer written there when it is not zero, also
    outside 1 to 30, and 1 when the input is zero or not a number, as the
    empty input and a lone sign are. *)
Theorem submit_needs_name_and_frequency_defaults
    (env : App.Env) (plants : list (gmap string value))
    (formData prev : gmap string value) (name input : string) :
  formData !! "name" = Some (VStr name) ->
  (Text.blank name ->
     PlantForm.handleSubmit formData = Ok None /\
     PlantForm.submit env plants formData = Ok plants) /\
  (~ Text.blank name ->
     PlantForm.handleSubmit formData = Ok (Some formData) /\
     PlantForm.submit env plants formData = App.addPlant env plants formData) /\
  (forall n : Z, n <> 0 -> Z.abs n <= Text.max_exact ->
     PlantForm.changeWateringFrequency prev (Text.show_Z n)
       = Ok (<["wateringFrequency" := VNum n]> prev)) /\
  (Text.parseInt input = Ok None \/ Text.parseInt input = Ok (Some 0) ->
     PlantForm.changeWateringFrequency prev input
       = Ok (<["wateringFrequency" := VNum 1]> prev)) /\
  PlantForm.changeWateringFrequency prev EmptyString
    = Ok (<["wateringFrequency" := VNum 1]> prev) /\
  PlantForm.changeWateringFrequency prev "0"
    = Ok (<["wateringFrequency" := VNum 1]> prev) /\
  PlantForm.changeWateringFrequency prev "-"
    = Ok (<["wateringFrequency" := VNum 1]> prev).
Proof.
  intros Hname. unfold PlantForm.submit, PlantForm.handleSubmit. rewrite Hname.
  split; [|split; [|split; [|split; [|done]]]].
  - intros Hblank. apply trim_blank in Hblank. by rewrite Hblank.
  - intros Hblank. destruct (Text.trim name) eqn:E; [|done].
    by apply trim_blank in E.
  - intros n Hn Hmax.
    unfold PlantForm.changeWateringFrequency, PlantForm.handleChange.
    rewrite parseInt_show_Z by done. by destruct n.
  - unfold PlantForm.changeWateringFrequency, PlantForm.handleChange.
    by intros [-> | ->].
Qed.

Lemma submit_needs_name_and_frequency_defaults_witness :
  let env := {| App.now := 1717243200000; App.zone := Date.kolkata |} in
  let name := String " " (String "194" (String "160" (String "009" EmptyString))) in
  let formData := PlantForm.handleChange PlantForm.initialFormData "name" (VStr name) in
  (PlantForm.handleSubmit formData = Ok None /\
   PlantForm.submit env [] formData = Ok []) /\
  PlantForm.changeWateringFrequency formData (Text.show_Z (-3))
    = Ok (<["wateringFrequency" := VNum (-3)]> formData) /\
  PlantForm.changeWateringFrequency formData "0"
    = Ok (<["wateringFrequency" := VNum 1]> formData).
Proof.
  intros env name formData.
  assert (Text.blank name) as Hblank.
  { apply (Text.blank_white (String " " EmptyString)); [cbn; tauto|].
    apply (Text.blank_white (String "194" (String "160" EmptyString)));
      [cbn; tauto|].
    apply (Text.blank_white (String "009" EmptyString)); [cbn; tauto|].
    apply Text.blank_empty. }
  assert (-3 <> 0) as Hn by lia.
  assert (Z.abs (-3) <= Text.max_exact) as Hmax by (vm_compute; discriminate).
  assert (Text.parseInt "0" = Ok None \/ Text.parseInt "0" = Ok (Some 0))
    as Hzero by (right; reflexivity).
  destruct (submit_needs_name_and_frequency_defaults
              env [] formData formData name "0" eq_refl)
    as (Hsubmit & _ & Hkept & Hone & _).
  split; [exact (Hsubmit Hblank)|]. split; [exact (Hkept (-3) Hn Hmax)|].
  exact (Hone Hzero).
Defined.

(** C7, where the statement fails: the input 45 is stored as 45, and the
    submission hands 45 to [addPlant], which appends a plant of that
    frequency. *)
Lemma frequency_above_range_is_kept :
  let env := {| App.now := 1717243200000; App.zone := Date.kolkata |} in
  let prev := PlantForm.handleChange PlantForm.initialFormData "name" (VStr "Fern") in
  let formData := <["wateringFrequency" := VNum 45]> prev in
  PlantForm.changeWateringFrequency prev "45" = Ok formData /\
  PlantForm.handleSubmit formData = Ok (Some formData) /\
  PlantForm.submit env [] formData =
    Ok [ <["createdAt" := VStr "2024-06-01"]>
           (<["nextWatering" := VStr "2024-07-16"]>
           (<["lastWatered" := VStr "2024-06-01"]>
           (<["id" := VNum 1717243200000]> formData))) ].
Proof. intros env prev formData. repeat split; evaluate. Qed.




(** * Further properties of the code *)

(** ** The store *)

Section StoreLaws.
Implicit Types (plants : list (gmap string value)) (plant : gmap string value).
Implicit Types (plantId : option value).

Lemma deletePlant_In plants plantId plant :
  In plant (App.deletePlant plants plantId) <->
  In plant plants /\ plant !! "id" <> plantId.
Proof.
  unfold App.deletePlant. rewrite filter_In, negb_true_iff.
  by rewrite strict_eq_false.
Qed.

Lemma spread_idempotent (u plant : gmap string value) : u ∪ (u ∪ plant) = u ∪ plant.
Proof. by rewrite (assoc_L (∪)), (idemp_L (∪)). Qed.

Lemma ids_length plants :
  List.length ((fun plant : gmap string value => plant !! "id") <$> plants)
  = List.length plants.
Proof. apply length_fmap. Qed.

Lemma updatePlant_twice plants plantId (u : gmap string value) :
  App.updatePlant (App.updatePlant plants plantId u) plantId u
    = App.updatePlant plants plantId u.
Proof.
  unfold App.updatePlant. rewrite List.map_map. apply List.map_ext.
  intros plant. destruct (strict_eq (plant !! "id") plantId) eqn:E.
  - destruct (strict_eq ((u ∪ plant) !! "id") plantId); [|done].
    apply spread_idempotent.
  - by rewrite E.
Qed.

(** The id of the entry that [addPlant] builds. *)
Lemma stamped_id (newPlant : gmap string value) (created next watered id : value) :
  (<["createdAt" := created]>
     (<["nextWatering" := next]>
        (<["lastWatered" := watered]> (<["id" := id]> newPlant)))) !! "id"
  = Some id.
Proof. rewrite !lookup_insert_ne by done. apply lookup_insert_eq. Qed.

End StoreLaws.

(** X1.  After [deletePlant] no entry carries the id, also when several
    entries carried it; every other entry is kept; deleting again changes
    nothing. *)
Theorem deletePlant_clears_id
    (plants : list (gmap string value)) (plantId : option value) :
  (forall plant, In plant (App.deletePlant plants plantId) <->
     In plant plants /\ plant !! "id" <> plantId) /\
  App.deletePlant (App.deletePlant plants plantId) plantId
    = App.deletePlant plants plantId.
Proof.
  split; [intros plant; apply deletePlant_In|].
  apply deletePlant_absent. intros plant Hin.
  by apply deletePlant_In in Hin as [_ Hid].
Qed.

(** X2.  [updatePlant] is idempotent: applying the same update a second
    time changes nothing, whatever the partial record holds, an [id] field
    included. *)
Theorem updatePlant_idempotent
    (plants : list (gmap string value)) (plantId : option value)
    (updatedData : gmap string value) :
  App.updatePlant (App.updatePlant plants plantId updatedData) plantId updatedData
    = App.updatePlant plants plantId updatedData.
Proof. apply updatePlant_twice. Qed.

(** X3.  When no entry carries the clock reading as its id, deleting the
    id that [addPlant] assigned undoes the addition. *)
Theorem addPlant_then_deletePlant
    (env : App.Env) (plants plants' : list (gmap string value))
    (newPlant : gmap string value) :
  App.addPlant env plants newPlant = Ok plants' ->
  (forall plant, In plant plants -> plant !! "id" <> Some (VNum (App.now env))) ->
  App.deletePlant plants' (Some (VNum (App.now env))) = plants.
Proof.
  unfold App.addPlant. intros Hadd Hfresh.
  destruct (App.calculateNextWatering env _) as [next| |]; try done.
  cbn [mbind result_bind] in Hadd. injection Hadd as <-.
  rewrite deletePlant_app, deletePlant_absent by done.
  unfold App.deletePlant. cbn [List.filter].
  rewrite (proj2 (strict_eq_true _ _)); [apply app_nil_r|].
  apply stamped_id.
Qed.

Lemma addPlant_then_deletePlant_witness :
  let env := {| App.now := 1717243200000; App.zone := Date.kolkata |} in
  let rose : gmap string value := {[ "id" := VNum 1; "name" := VStr "Rose" ]} in
  let draft : gmap string value :=
    {[ "name" := VStr "Fern"; "wateringFrequency" := VNum 7 ]} in
  let fern : gmap string value :=
    <["createdAt" := VStr "2024-06-01"]>
      (<["nextWatering" := VStr "2024-06-08"]>
      (<["lastWatered" := VStr "2024-06-01"]>
      (<["id" := VNum 1717243200000]> draft))) in
  App.deletePlant [rose; fern] (Some (VNum 1717243200000)) = [rose].
Proof.
  intros env rose draft fern.
  assert (App.addPlant env [rose] draft = Ok [rose; fern]) as Hadd by evaluate.
  apply (addPlant_then_deletePlant env [rose] [rose; fern] draft Hadd).
  intros plant [<-|[]]. vm_compute. discriminate.
Defined.

(** X4.  [addPlant] keeps the ids pairwise distinct when the clock reading
    differs from every id in the collection; two additions at the same clock
    reading leave two entries with the same id. *)
Theorem addPlant_ids_distinct_by_clock
    (env : App.Env) (plants once twice : list (gmap string value))
    (first second : gmap string value) :
  App.addPlant env plants first = Ok once ->
  App.addPlant env once second = Ok twice ->
  (NoDup ((fun plant : gmap string value => plant !! "id") <$> plants) ->
   (forall plant, In plant plants -> plant !! "id" <> Some (VNum (App.now env))) ->
   NoDup ((fun plant : gmap string value => plant !! "id") <$> once)) /\
  ~ NoDup ((fun plant : gmap string value => plant !! "id") <$> twice).
Proof.
  unfold App.addPlant. intros Hone Htwo.
  destruct (App.calculateNextWatering env (first !! _)) as [n1| |]; try done.
  destruct (App.calculateNextWatering env (second !! _)) as [n2| |]; try done.
  cbn [mbind result_bind] in *. injection Hone as <-. injection Htwo as <-.
  split.
  - intros Hnd Hfresh. rewrite fmap_app. apply NoDup_app. split; [done|]. split.
    + intros id Hid Hnew. apply list_elem_of_fmap in Hid as (plant & -> & Hin).
      apply list_elem_of_In in Hin. apply (Hfresh plant Hin).
      cbn [fmap list_fmap] in Hnew. apply list_elem_of_singleton in Hnew.
      rewrite Hnew. apply stamped_id.
    + cbn [fmap list_fmap]. apply NoDup_singleton.
  - rewrite !fmap_app. cbn [fmap list_fmap].
    rewrite <- (assoc_L (++)). intros Hnd.
    apply NoDup_app in Hnd as (_ & _ & Hnd). cbn [app] in Hnd.
    apply NoDup_cons in Hnd as [Hnotin _]. apply Hnotin.
    rewrite !stamped_id. left.
Qed.

Lemma addPlant_ids_distinct_by_clock_witness :
  let env := {| App.now := 1717243200000; App.zone := Date.kolkata |} in
  let stamp (draft : gmap string value) (next : string) : gmap string value :=
    <["createdAt" := VStr "2024-06-01"]>
      (<["nextWatering" := VStr next]>
      (<["lastWatered" := VStr "2024-06-01"]>
      (<["id" := VNum 1717243200000]> draft))) in
  let fern : gmap string value :=
    {[ "name" := VStr "Fern"; "wateringFrequency" := VNum 7 ]} in
  let mint : gmap string value :=
    {[ "name" := VStr "Mint"; "wateringFrequency" := VNum 2 ]} in
  ~ NoDup ((fun plant : gmap string value => plant !! "id")
             <$> [stamp fern "2024-06-08"; stamp mint "2024-06-03"]).
Proof.
  intros env stamp fern mint.
  assert (App.addPlant env [] fern = Ok [stamp fern "2024-06-08"]) as Hone
    by evaluate.
  assert (App.addPlant env [stamp fern "2024-06-08"] mint
          = Ok [stamp fern "2024-06-08"; stamp mint "2024-06-03"]) as Htwo
    by evaluate.
  exact (proj2 (addPlant_ids_distinct_by_clock env [] _ _ fern mint Hone Htwo)).
Defined.

Section WateringLaws.
Implicit Types (plants : list (gmap string value)) (plant : gmap string value).
Implicit Types (plantId : option value).

(** What [waterPlant] does once it has found an entry: it rewrites the two
    dates of every entry with the id. *)
Lemma waterPlant_Ok env plants plantId plants' :
  App.waterPlant env plants plantId = Ok plants' ->
  plants' = plants \/
  exists next,
    plants' = App.updatePlant plants plantId
                (<["nextWatering" := VStr next]>
                   {[ "lastWatered" := VStr (App.today env) ]}).
Proof.
  unfold App.waterPlant. destruct (List.find _ plants) as [plant|].
  - destruct (App.calculateNextWatering env _) as [next| |]; try done.
    cbn [mbind result_bind]. intros [= <-]. right. by exists next.
  - intros [= <-]. by left.
Qed.

Lemma watered_lookup_other plant (next watered : value) (k : string) :
  k <> "lastWatered" -> k <> "nextWatering" ->
  (<["nextWatering" := next]> {[ "lastWatered" := watered ]} ∪ plant) !! k
  = plant !! k.
Proof.
  intros H1 H2. rewrite watered_spread.
  by rewrite !lookup_insert_ne.
Qed.

Lemma find_first {A : Type} (p : A -> bool) (l : list A) (x : A) :
  List.find p l = Some x ->
  exists before after, l = before ++ x :: after /\ p x = true /\
    forall y, In y before -> p y = false.
Proof.
  induction l as [|y l IH]; [done|]. cbn [List.find].
  destruct (p y) eqn:E.
  - intros [= ->]. by exists [], l.
  - intros H. destruct (IH H) as (before & after & -> & Hx & Hb).
    exists (y :: before), after. split; [done|]. split; [done|].
    intros z [<-|Hz]; [done|by apply Hb].
Qed.

Lemma find_app_first {A : Type} (p : A -> bool) (before after : list A) (x : A) :
  p x = true -> (forall y, In y before -> p y = false) ->
  List.find p (before ++ x :: after) = Some x.
Proof.
  intros Hx Hb. induction before as [|y before IH].
  - cbn. by rewrite Hx.
  - cbn. rewrite (Hb y) by by left. apply IH. intros z Hz. apply Hb. by right.
Qed.

End WateringLaws.

(** X5.  Watering rewrites nothing but the two dates: the collection keeps
    its length, and every other field of every entry, the id and the
    frequency included, keeps its value at its position. *)
Theorem waterPlant_keeps_other_fields
    (env : App.Env) (plants plants' : list (gmap string value))
    (plantId : option value) (k : string) :
  App.waterPlant env plants plantId = Ok plants' ->
  k <> "lastWatered" -> k <> "nextWatering" ->
  List.length plants' = List.length plants /\
  (fun plant : gmap string value => plant !! k) <$> plants'
    = (fun plant : gmap string value => plant !! k) <$> plants.
Proof.
  intros Hwater H1 H2.
  destruct (waterPlant_Ok _ _ _ _ Hwater) as [->|[next ->]]; [done|].
  split; [apply updatePlant_length|].
  unfold App.updatePlant. rewrite <- list_fmap_compose. apply list_fmap_ext.
  intros i plant _. cbn [compose].
  destruct (strict_eq (plant !! "id") plantId); [|done].
  by apply watered_lookup_other.
Qed.

Lemma waterPlant_keeps_other_fields_witness :
  let env := {| App.now := 1717243200000; App.zone := Date.kolkata |} in
  let rose : gmap string value :=
    {[ "id" := VNum 1; "wateringFrequency" := VNum 3; "name" := VStr "Rose" ]} in
  let watered : gmap string value :=
    <["nextWatering" := VStr "2024-06-04"]>
      (<["lastWatered" := VStr "2024-06-01"]> rose) in
  List.length [watered] = List.length [rose] /\
  (fun plant : gmap string value => plant !! "name") <$> [watered]
    = (fun plant : gmap string value => plant !! "name") <$> [rose].
Proof.
  intros env rose watered.
  assert (App.waterPlant env [rose] (Some (VNum 1)) = Ok [watered]) as Hwater
    by evaluate.
  apply (waterPlant_keeps_other_fields env [rose] [watered] (Some (VNum 1)) "name"
           Hwater); discriminate.
Defined.

(** X6.  Watering a second time at the same clock reading changes nothing
    more. *)
Theorem waterPlant_twice
    (env : App.Env) (plants plants' : list (gmap string value))
    (plantId : option value) :
  App.waterPlant env plants plantId = Ok plants' ->
  App.waterPlant env plants' plantId = Ok plants'.
Proof.
  unfold App.waterPlant at 1.
  destruct (List.find _ plants) as [plant|] eqn:Hfind.
  - destruct (App.calculateNextWatering env _) as [next| |] eqn:Hnext; try done.
    cbn [mbind result_bind]. intros [= <-].
    destruct (find_first _ _ _ Hfind) as (before & after & -> & Hid & Hbefore).
    set (u := <["nextWatering" := VStr next]>
                {[ "lastWatered" := VStr (App.today env) ]} : gmap string value).
    assert (List.find (fun p => strict_eq (p !! "id") plantId)
              (App.updatePlant (before ++ plant :: after) plantId u)
            = Some (u ∪ plant)) as Hfind'.
    { unfold App.updatePlant. rewrite List.map_app. cbn [List.map].
      rewrite Hid. apply find_app_first.
      - unfold u. by rewrite watered_lookup_other.
      - intros y Hy. apply in_map_iff in Hy as (z & <- & Hz).
        by rewrite (Hbefore z Hz), (Hbefore z Hz). }
    unfold App.waterPlant. rewrite Hfind'.
    assert ((u ∪ plant) !! "wateringFrequency" = plant !! "wateringFrequency")
      as -> by by apply watered_lookup_other.
    rewrite Hnext.
    cbn [mbind result_bind]. f_equal. apply updatePlant_twice.
  - intros [= <-]. unfold App.waterPlant. by rewrite Hfind.
Qed.

Lemma waterPlant_twice_witness :
  let env := {| App.now := 1717243200000; App.zone := Date.kolkata |} in
  let rose : gmap string value :=
    {[ "id" := VNum 1; "wateringFrequency" := VNum 3; "name" := VStr "Rose" ]} in
  let watered : gmap string value :=
    <["nextWatering" := VStr "2024-06-04"]>
      (<["lastWatered" := VStr "2024-06-01"]> rose) in
  App.waterPlant env [watered] (Some (VNum 1)) = Ok [watered].
Proof.
  intros env rose watered.
  assert (App.waterPlant env [rose] (Some (VNum 1)) = Ok [watered]) as Hwater
    by evaluate.
  exact (waterPlant_twice env [rose] [watered] (Some (VNum 1)) Hwater).
Defined.

Section NextWateringErrors.

Lemma calculateNextWatering_undefined env :
  App.calculateNextWatering env None = Throw RangeError.
Proof. reflexivity. Qed.

Lemma calculateNextWatering_out_of_range env f :
  Date.steady (App.zone env) (App.now env) f ->
  ~ Date.in_range (App.now env + f * Date.msPerDay) ->
  App.calculateNextWatering env (Some (VNum f)) = Throw RangeError.
Proof.
  intros Hsteady Hrange.
  unfold App.calculateNextWatering, App.number_plus, mbind, result_bind.
  by rewrite setDate_getDate_stable, TimeClip_out_of_range.
Qed.

End NextWateringErrors.

(** X7.  A draft without a watering frequency is not added: the date
    computation throws a RangeError.  The same happens on watering when the
    first entry with the id has no frequency. *)
Theorem missing_frequency_throws
    (env : App.Env) (plants before after : list (gmap string value))
    (newPlant plant : gmap string value) (plantId : option value) :
  (newPlant !! "wateringFrequency" = None ->
     App.addPlant env plants newPlant = Throw RangeError) /\
  (plant !! "id" = plantId ->
   plant !! "wateringFrequency" = None ->
   (forall other, In other before -> other !! "id" <> plantId) ->
     App.waterPlant env (before ++ plant :: after) plantId = Throw RangeError).
Proof.
  split.
  - intros Hf. unfold App.addPlant.
    by rewrite Hf, calculateNextWatering_undefined.
  - intros Hid Hf Hbefore. unfold App.waterPlant.
    rewrite (find_app_first _ before after plant).
    + by rewrite Hf, calculateNextWatering_undefined.
    + by apply strict_eq_true.
    + intros other Hin. by apply strict_eq_false, Hbefore.
Qed.

Lemma missing_frequency_throws_witness :
  let env := {| App.now := 1717243200000; App.zone := Date.kolkata |} in
  let rose : gmap string value := {[ "id" := VNum 1; "name" := VStr "Rose" ]} in
  App.addPlant env [] rose = Throw RangeError /\
  App.waterPlant env [rose] (Some (VNum 1)) = Throw RangeError.
Proof.
  intros env rose.
  destruct (missing_frequency_throws env [] [] [] rose rose (Some (VNum 1)))
    as [Hadd Hwater].
  split; [by apply Hadd|]. apply Hwater; [done|done|by intros other []].
Defined.

(** X8.  On a host with a steady offset, a frequency that carries the date
    beyond the range of time values (8.64e15 ms around the epoch) makes
    [addPlant] throw a RangeError; nothing is added. *)
Theorem addPlant_frequency_beyond_dates
    (env : App.Env) (plants : list (gmap string value))
    (newPlant : gmap string value) (f : Z) :
  newPlant !! "wateringFrequency" = Some (VNum f) ->
  Date.steady (App.zone env) (App.now env) f ->
  ~ Date.in_range (App.now env + f * Date.msPerDay) ->
  App.addPlant env plants newPlant = Throw RangeError.
Proof.
  intros Hf Hsteady Hrange. unfold App.addPlant.
  by rewrite Hf, calculateNextWatering_out_of_range.
Qed.

Lemma addPlant_frequency_beyond_dates_witness :
  let env := {| App.now := 1717243200000; App.zone := Date.kolkata |} in
  let prev := PlantForm.handleChange PlantForm.initialFormData "name" (VStr "Fern") in
  let formData := <["wateringFrequency" := VNum 100000000]> prev in
  PlantForm.changeWateringFrequency prev "100000000" = Ok formData /\
  App.addPlant env [] formData = Throw RangeError.
Proof.
  intros env prev formData. split; [evaluate|].
  apply (addPlant_frequency_beyond_dates env [] formData 100000000).
  - reflexivity.
  - reflexivity.
  - vm_compute. intros H. by apply H.
Defined.

(** ** The plant manager *)

Section ManagerLaws.
Implicit Types (plants : list (gmap string value)) (plant : gmap string value).

Lemma filter_result_Throw {A : Type} (p : A -> result bool) (e : error)
    (before after : list A) (x : A) :
  Forall (fun y => exists b, p y = Ok b) before ->
  p x = Throw e ->
  PlantManager.filter_result p (before ++ x :: after) = Throw e.
Proof.
  intros Hbefore Hx. induction Hbefore as [|y before [b Hy] _ IH].
  - cbn. by rewrite Hx.
  - cbn [app PlantManager.filter_result]. by rewrite Hy, IH.
Qed.

Lemma set_of_spec (values seen : list (option value)) :
  NoDup seen ->
  NoDup (PlantManager.set_of values seen) /\
  forall v, v ∈ PlantManager.set_of values seen <-> v ∈ seen \/ v ∈ values.
Proof.
  revert seen. induction values as [|x values IH]; intros seen Hnd.
  - cbn. split; [done|]. intros v. rewrite elem_of_nil. tauto.
  - cbn [PlantManager.set_of]. destruct (bool_decide (x ∈ seen)) eqn:E.
    + apply bool_decide_eq_true in E.
      destruct (IH seen Hnd) as [Hnd' Hin]. split; [done|].
      intros v. rewrite Hin, elem_of_cons.
      split; [tauto|]. intros [H|[->|H]]; tauto.
    + apply bool_decide_eq_false in E.
      destruct (IH (seen ++ [x])) as [Hnd' Hin].
      { apply NoDup_app. split; [done|]. split; [|apply NoDup_singleton].
        intros y Hy Hx. apply list_elem_of_singleton in Hx. by subst. }
      split; [done|]. intros v.
      rewrite Hin, elem_of_app, list_elem_of_singleton, elem_of_cons. tauto.
Qed.

End ManagerLaws.

(** X9.  The filter stops with a TypeError at the first plant whose name is
    not a string, and at the first plant whose type is not a string while no
    part of its name equals the search text up to the case of letters (name
    and search text being ASCII texts); the plants before it must have
    passed the predicate without an exception. *)
Theorem filteredPlants_type_error
    (before after : list (gmap string value)) (plant : gmap string value)
    (searchTerm filterType : string) :
  Forall (fun other => exists keep : bool,
            PlantManager.matches searchTerm filterType other = Ok keep) before ->
  ((forall name, plant !! "name" <> Some (VStr name)) \/
   (exists name, plant !! "name" = Some (VStr name) /\
      Text.is_ascii name = true /\ Text.is_ascii searchTerm = true /\
      (forall pre mid post,
         name = pre +:+ mid +:+ post ->
         Text.equal_ignoring_case mid searchTerm = false) /\
      forall type, plant !! "type" <> Some (VStr type))) ->
  PlantManager.filteredPlants (before ++ plant :: after) searchTerm filterType
    = Throw TypeError.
Proof.
  intros Hbefore Hplant. apply filter_result_Throw; [done|].
  unfold PlantManager.matches, PlantManager.text_of.
  destruct Hplant as [Hname|(name & Hname & Han & Has & Hsearch & Htype)].
  - destruct (plant !! "name") as [[| | |name]|]; try done.
    by destruct (Hname name).
  - rewrite Hname. cbn [mbind result_bind].
    rewrite includesLowered_ascii by done. cbn [mbind result_bind].
    destruct (Text.includes (Text.lower name) (Text.lower searchTerm)) eqn:E.
    + apply includes_lower in E as (pre & mid & post & Hs & E).
      by rewrite (Hsearch pre mid post Hs) in E.
    + destruct (plant !! "type") as [[| | |type]|]; try done.
      by destruct (Htype type).
Qed.

Lemma filteredPlants_type_error_witness :
  let rose : gmap string value :=
    {[ "name" := VStr "Rose"; "type" := VStr "Flowering" ]} in
  let typeless : gmap string value := {[ "name" := VStr "Fern" ]} in
  PlantManager.filteredPlants [rose; typeless; rose] "ro" "all" = Throw TypeError.
Proof.
  intros rose typeless.
  apply (filteredPlants_type_error [rose] [rose] typeless "ro" "all").
  - repeat constructor. exists true. evaluate.
  - right. exists "Fern". split; [reflexivity|]. split; [reflexivity|].
    split; [reflexivity|]. split.
    + by apply includes_lower_false.
    + intros type. vm_compute. discriminate.
Defined.

(** X10.  With the empty search text and the filter [all], the filtered
    list is the whole collection, provided every name is a string; the type
    of a plant is then not looked at. *)
Theorem filteredPlants_no_criteria (plants : list (gmap string value)) :
  Forall (fun plant => exists name, plant !! "name" = Some (VStr name)) plants ->
  PlantManager.filteredPlants plants "" "all" = Ok plants.
Proof.
  intros Hnames. unfold PlantManager.filteredPlants.
  rewrite (filter_result_Ok _ (fun _ => true)); [by rewrite filter_true|].
  eapply Forall_impl; [exact Hnames|]. intros plant [name Hname].
  by rewrite (matches_no_search _ _ name).
Qed.

Lemma filteredPlants_no_criteria_witness :
  let rose : gmap string value := {[ "name" := VStr "Rose" ]} in
  let fern : gmap string value :=
    {[ "name" := VStr "Fern"; "type" := VStr "Fern" ]} in
  PlantManager.filteredPlants [rose; fern] "" "all" = Ok [rose; fern].
Proof.
  intros rose fern. apply (filteredPlants_no_criteria [rose; fern]).
  repeat constructor; by eexists.
Defined.

(** X11.  The type dropdown offers [all] first and then every type of the
    collection once, whatever the order or number of plants: the options
    after [all] are pairwise distinct, and a value is among them exactly
    when it is the type of some plant. *)
Theorem plantTypes_unique (plants : list (gmap string value)) :
  exists types,
    PlantManager.plantTypes plants = Some (VStr "all") :: types /\
    NoDup types /\
    forall v, v ∈ types <-> exists plant, plant ∈ plants /\ plant !! "type" = v.
Proof.
  eexists. split; [reflexivity|].
  destruct (set_of_spec
              ((fun plant : gmap string value => plant !! "type") <$> plants) [])
    as [Hnd Hin]; [constructor|].
  split; [done|]. intros v. rewrite Hin, elem_of_nil, list_elem_of_fmap.
  split.
  - intros [[]|(plant & -> & Hp)]. by exists plant.
  - intros (plant & Hp & <-). right. by exists plant.
Qed.

(** X12.  Every type that the dropdown offers after [all] selects, with the
    empty search text, a list that is not empty: the plants of that type, in
    the order of the collection. *)
Theorem plantTypes_option_selects_plants
    (plants : list (gmap string value)) (type : string) :
  Forall (fun plant => exists name type,
            plant !! "name" = Some (VStr name) /\
            plant !! "type" = Some (VStr type)) plants ->
  Some (VStr type) ∈ List.tl (PlantManager.plantTypes plants) ->
  type <> "all" ->
  exists selected,
    PlantManager.filteredPlants plants "" type = Ok selected /\
    selected <> [] /\
    selected = List.filter
      (fun plant => bool_decide (plant !! "type" = Some (VStr type))) plants.
Proof.
  intros Hstrings Hoffered Hall. cbn [PlantManager.plantTypes List.tl] in Hoffered.
  destruct (set_of_spec
              ((fun plant : gmap string value => plant !! "type") <$> plants) [])
    as [_ Hspec]; [constructor|].
  apply Hspec in Hoffered as [Hnil|Hin]; [by apply elem_of_nil in Hnil|].
  apply list_elem_of_fmap in Hin as (plant & Htype & Hplant).
  eexists. split; [|split; [|reflexivity]].
  - unfold PlantManager.filteredPlants. apply filter_result_Ok.
    eapply Forall_impl; [exact Hstrings|].
    intros other (name & type' & Hn & Ht).
    rewrite (matches_no_search _ _ name) by done. f_equal.
    assert (String.eqb type "all" = false) as -> by by apply String.eqb_neq.
    cbn [orb]. rewrite Ht, strict_eq_text.
    destruct (String.eqb type' type) eqn:E.
    + apply String.eqb_eq in E as ->. symmetry. by apply bool_decide_eq_true.
    + apply String.eqb_neq in E. symmetry. apply bool_decide_eq_false. congruence.
  - intros Hempty.
    assert (In plant (List.filter
      (fun plant => bool_decide (plant !! "type" = Some (VStr type))) plants)) as Hin.
    { apply filter_In. split; [by apply list_elem_of_In|].
      by apply bool_decide_eq_true. }
    by rewrite Hempty in Hin.
Qed.

Lemma plantTypes_option_selects_plants_witness :
  let rose : gmap string value :=
    {[ "name" := VStr "Rose"; "type" := VStr "Flowering" ]} in
  let mint : gmap string value :=
    {[ "name" := VStr "Mint"; "type" := VStr "Herb" ]} in
  let iris : gmap string value :=
    {[ "name" := VStr "Iris"; "type" := VStr "Flowering" ]} in
  exists selected,
    PlantManager.filteredPlants [rose; mint; iris] "" "Flowering" = Ok selected /\
    selected <> [] /\
    selected = List.filter
      (fun plant => bool_decide (plant !! "type" = Some (VStr "Flowering")))
      [rose; mint; iris].
Proof.
  intros rose mint iris.
  apply (plantTypes_option_selects_plants [rose; mint; iris] "Flowering").
  - repeat constructor; by eexists _, _.
  - evaluate.
  - discriminate.
Defined.


(** ** The dashboard *)

Section DashboardLaws.
Implicit Types (plants : list (gmap string value)) (plant : gmap string value).

Lemma insert_Ok_perm {A : Type} (cmp : A -> A -> result (option Z)) (x : A)
    (l l' : list A) :
  Dashboard.insert cmp x l = Ok l' -> Permutation (x :: l) l'.
Proof.
  revert l'. induction l as [|y l IH]; intros l'.
  - cbn. by intros [= <-].
  - cbn [Dashboard.insert]. destruct (cmp x y) as [[c|]| |]; try done.
    cbn [mbind result_bind]. destruct (0 <? c).
    + destruct (Dashboard.insert cmp x l) as [r| |]; try done.
      cbn [mbind result_bind]. intros [= <-].
      rewrite perm_swap. constructor. by apply IH.
    + by intros [= <-].
Qed.

Lemma sort_Ok_perm {A : Type} (cmp : A -> A -> result (option Z)) (l l' : list A) :
  Dashboard.sort cmp l = Ok l' -> Permutation l l'.
Proof.
  revert l'. induction l as [|x l IH]; intros l'.
  - cbn. by intros [= <-].
  - cbn [Dashboard.sort]. destruct (Dashboard.sort cmp l) as [s| |]; try done.
    cbn [mbind result_bind]. intros H. apply insert_Ok_perm in H.
    rewrite <- H. constructor. by apply IH.
Qed.

Lemma filter_three_way {A : Type} (p q r : A -> bool) (l : list A) :
  (forall x, (if p x then 1 else 0) + (if q x then 1 else 0)
             + (if r x then 1 else 0) = 1)%nat ->
  (List.length (List.filter p l) + List.length (List.filter q l)
   + List.length (List.filter r l) = List.length l)%nat.
Proof.
  intros H. induction l as [|x l IH]; [done|]. cbn [List.filter List.length].
  specialize (H x). destruct (p x), (q x), (r x); cbn [List.length] in *; lia.
Qed.

End DashboardLaws.

(** X13.  The two dashboard lists never share a plant.  A plant whose
    next-watering value is a string is on exactly one of them; a plant with
    any other value there, or none, is on neither.  So the need-watering
    count, the number of plants due later and the number of plants without
    a text date add up to the total. *)
Theorem dashboard_lists_partition
    (env : App.Env) (plants : list (gmap string value)) :
  (forall plant s, plant !! "nextWatering" = Some (VStr s) ->
     Dashboard.due env plant = negb (Dashboard.later env plant)) /\
  (forall plant, (forall s, plant !! "nextWatering" <> Some (VStr s)) ->
     Dashboard.due env plant = false /\ Dashboard.later env plant = false) /\
  (Dashboard.needWatering (Dashboard.stats env plants)
   + List.length (List.filter (Dashboard.later env) plants)
   + List.length (List.filter
       (fun plant => match plant !! "nextWatering" with
                     | Some (VStr _) => false
                     | _ => true
                     end) plants)
   = Dashboard.total (Dashboard.stats env plants))%nat.
Proof.
  split; [|split].
  - intros plant s Hs. unfold Dashboard.due, Dashboard.later. rewrite Hs.
    rewrite le_gt_exclusive. by destruct (Text.le _ _).
  - intros plant Hs. unfold Dashboard.due, Dashboard.later.
    destruct (plant !! "nextWatering") as [[| | |s]|]; try done.
    by destruct (Hs s).
  - cbn [Dashboard.stats Dashboard.needWatering Dashboard.total].
    apply filter_three_way. intros plant. unfold Dashboard.due, Dashboard.later.
    destruct (plant !! "nextWatering") as [[| | |s]|]; try done.
    rewrite le_gt_exclusive. by destruct (Text.le _ _).
Qed.

(** X14.  Whenever the upcoming list is produced, it has at most five
    entries, each of them a plant of the collection whose next-watering date
    is after today. *)
Theorem upcoming_at_most_five
    (env : App.Env) (plants shown : list (gmap string value)) :
  Dashboard.upcoming env plants = Ok shown ->
  (List.length shown <= 5)%nat /\
  forall plant, In plant shown ->
    In plant plants /\ Dashboard.later env plant = true.
Proof.
  unfold Dashboard.upcoming.
  destruct (Dashboard.sort _ _) as [sorted| |] eqn:Hsort; try done.
  cbn [mbind result_bind]. intros [= <-]. split.
  - apply List.firstn_le_length.
  - intros plant Hin. apply filter_In.
    apply list_elem_of_In. rewrite (sort_Ok_perm _ _ _ Hsort).
    apply (subseteq_take 5). by apply list_elem_of_In.
Qed.

Lemma upcoming_at_most_five_witness :
  let env := {| App.now := 1717243200000; App.zone := Date.kolkata |} in
  let plant (next : string) : gmap string value :=
    {[ "nextWatering" := VStr next ]} in
  let plants :=
    [plant "2024-06-07"; plant "2024-06-06"; plant "2024-06-05";
     plant "2024-05-30"; plant "2024-06-04"; plant "2024-06-03";
     plant "2024-06-02"] in
  let shown :=
    [plant "2024-06-02"; plant "2024-06-03"; plant "2024-06-04";
     plant "2024-06-05"; plant "2024-06-06"] in
  (List.length shown <= 5)%nat /\
  forall p, In p shown -> In p plants /\ Dashboard.later env p = true.
Proof.
  intros env plant plants shown.
  assert (Dashboard.upcoming env plants = Ok shown) as Hup by evaluate.
  exact (upcoming_at_most_five env plants shown Hup).
Defined.

(** ** The gallery *)

Section GalleryLaws.

(** What holds of the gallery state at every moment: the index is one of
    0, 1, 2, and a selected plant has its three photos. *)
Lemma gallery_step_invariant (st : Gallery.State) (e : Gallery.Event) :
  (0 <= Gallery.currentImageIndex st < 3 /\
   forall selected, Gallery.selectedPlant st = Some selected ->
     exists p, selected = Gallery.withPhotos p) ->
  (0 <= Gallery.currentImageIndex (Gallery.step st e) < 3 /\
   forall selected, Gallery.selectedPlant (Gallery.step st e) = Some selected ->
     exists p, selected = Gallery.withPhotos p).
Proof.
  intros [Hidx Hsel]. destruct st as [[selected|] idx]; cbn in Hidx.
  - destruct (Hsel selected eq_refl) as [p ->].
    destruct e as [q|q| | | |i]; cbn; change (Z.of_nat 3 - 1) with 2.
    + split; [lia|]. intros ? [= <-]. by exists q.
    + split; [lia|]. intros ? [= <-]. by exists q.
    + split; [lia|]. done.
    + destruct (Z.eqb_spec idx 2); cbn; (split; [lia|]);
        intros ? [= <-]; by exists p.
    + destruct (Z.eqb_spec idx 0); cbn; (split; [lia|]);
        intros ? [= <-]; by exists p.
    + destruct (Nat.leb_spec i 2); cbn; (split; [lia|]);
        intros ? [= <-]; by exists p.
  - destruct e as [q|q| | | |i]; cbn; (split; [lia|]); try done.
    + intros ? [= <-]. by exists q.
    + intros ? [= <-]. by exists q.
Qed.

Lemma gallery_run_invariant (events : list Gallery.Event) (st : Gallery.State) :
  (0 <= Gallery.currentImageIndex st < 3 /\
   forall selected, Gallery.selectedPlant st = Some selected ->
     exists p, selected = Gallery.withPhotos p) ->
  (0 <= Gallery.currentImageIndex (List.fold_left Gallery.step events st) < 3 /\
   forall selected,
     Gallery.selectedPlant (List.fold_left Gallery.step events st) = Some selected ->
     exists p, selected = Gallery.withPhotos p).
Proof.
  revert st. induction events as [|e events IH]; intros st Hst; [done|].
  cbn [List.fold_left]. by apply IH, gallery_step_invariant.
Qed.

End GalleryLaws.

(** X15.  Whatever the user does in the gallery, the carousel index stays
    within the three photos of the selected plant: the image shown is always
    one of them, never a position outside the array. *)
Theorem gallery_image_always_defined (events : list Gallery.Event) :
  0 <= Gallery.currentImageIndex (Gallery.run events) < 3 /\
  forall selected,
    Gallery.selectedPlant (Gallery.run events) = Some selected ->
    List.length (Gallery.photos selected) = 3%nat /\
    exists photo,
      Gallery.shown selected (Gallery.currentImageIndex (Gallery.run events))
        = Some photo.
Proof.
  destruct (gallery_run_invariant events Gallery.initial) as [Hidx Hsel].
  { split; [cbn; lia|]. done. }
  split; [exact Hidx|]. intros selected Hs. destruct (Hsel selected Hs) as [p ->].
  split; [done|]. unfold Gallery.run in *. unfold Gallery.shown.
  set (idx := Gallery.currentImageIndex _) in *.
  assert ((idx <? 0) = false) as -> by (apply Z.ltb_ge; lia).
  assert (idx = 0 \/ idx = 1 \/ idx = 2) as [-> | [-> | ->]] by lia;
    by eexists.
Qed.

(** X16.  With a plant selected and the index within its photos, the two
    arrows undo each other, and the next arrow steps through the photos in a
    cycle: from the last photo it returns to the first. *)
Theorem gallery_arrows_cycle (selected : Gallery.PlantWithPhotos) (index : Z) :
  0 <= index < Z.of_nat (List.length (Gallery.photos selected)) ->
  let st := {| Gallery.selectedPlant := Some selected;
               Gallery.currentImageIndex := index |} in
  Gallery.prevImage (Gallery.nextImage st) = st /\
  Gallery.nextImage (Gallery.prevImage st) = st /\
  Gallery.currentImageIndex (Gallery.nextImage st)
    = (index + 1) mod Z.of_nat (List.length (Gallery.photos selected)).
Proof.
  intros Hidx st. unfold st, Gallery.nextImage, Gallery.prevImage. cbn.
  set (n := Z.of_nat (List.length (Gallery.photos selected))) in *.
  split; [|split].
  - destruct (index =? n - 1) eqn:E; cbn.
    + apply Z.eqb_eq in E. do 2 f_equal. lia.
    + apply Z.eqb_neq in E.
      assert ((index + 1 =? 0) = false) as -> by (apply Z.eqb_neq; lia).
      do 2 f_equal. lia.
  - destruct (index =? 0) eqn:E; cbn.
    + apply Z.eqb_eq in E. rewrite Z.eqb_refl. by subst.
    + apply Z.eqb_neq in E.
      assert ((index - 1 =? n - 1) = false) as -> by (apply Z.eqb_neq; lia).
      do 2 f_equal. lia.
  - destruct (index =? n - 1) eqn:E.
    + apply Z.eqb_eq in E. replace (index + 1) with n by lia.
      by rewrite Z.mod_same by lia.
    + apply Z.eqb_neq in E. rewrite Z.mod_small; lia.
Qed.

Lemma gallery_arrows_cycle_witness :
  let rose : gmap string value := {[ "name" := VStr "Rose" ]} in
  let st := {| Gallery.selectedPlant := Some (Gallery.withPhotos rose);
               Gallery.currentImageIndex := 2 |} in
  Gallery.prevImage (Gallery.nextImage st) = st /\
  Gallery.nextImage (Gallery.prevImage st) = st /\
  Gallery.currentImageIndex (Gallery.nextImage st) = 0.
Proof.
  intros rose.
  apply (gallery_arrows_cycle (Gallery.withPhotos rose) 2). cbn. lia.
Defined.

(** ** The plant card *)

(** X17.  Saving an edit writes the card's copy of every field.  With
    pairwise distinct ids, when the copy has every field that the stored
    entry has, the stored entry is replaced by the copy as a whole: a field
    that changed in the store after the copy was taken, such as the dates
    that watering sets, goes back to the copy's value. *)
Theorem handleSave_overwrites_with_copy
    (plants : list (gmap string value)) (i : nat)
    (plant stored editData : gmap string value) :
  NoDup ((fun plant : gmap string value => plant !! "id") <$> plants) ->
  plants !! i = Some stored ->
  stored !! "id" = plant !! "id" ->
  dom stored ⊆ dom editData ->
  PlantCard.handleSave plants plant editData = <[i := editData]> plants.
Proof.
  intros Hnd Hi Hid Hkeys. unfold PlantCard.handleSave.
  rewrite <- Hid, (updatePlant_distinct plants i stored) by done.
  f_equal. apply map_eq. intros k. rewrite spread_lookup.
  destruct (editData !! k) as [v|] eqn:E; [done|].
  destruct (stored !! k) as [w|] eqn:Es; [|done].
  assert (k ∈ dom editData) as Hk by (apply Hkeys, elem_of_dom; by eexists).
  apply elem_of_dom in Hk as [v Hv]. congruence.
Qed.

Lemma handleSave_overwrites_with_copy_witness :
  let rose : gmap string value :=
    {[ "id" := VNum 1; "name" := VStr "Rose";
       "lastWatered" := VStr "2024-05-01"; "nextWatering" := VStr "2024-05-04" ]} in
  let watered : gmap string value :=
    <["nextWatering" := VStr "2024-06-04"]>
      (<["lastWatered" := VStr "2024-06-01"]> rose) in
  let editData := PlantCard.edit rose "name" "Tea rose" in
  PlantCard.handleSave [watered] rose editData = [editData].
Proof.
  intros rose watered editData.
  apply (handleSave_overwrites_with_copy [watered] 0 rose watered editData).
  - evaluate.
  - reflexivity.
  - reflexivity.
  - evaluate.
Defined.

(** ** Storage *)

(** X18.  Two collections are stored as the same text only when they are
    equal: nothing of a collection is lost in what the persist effect
    writes. *)
Theorem persist_injective (plants plants' : list (gmap string value)) :
  App.persist plants = App.persist plants' -> plants = plants'.
Proof.
  unfold App.persist. intros H. apply (inj Some) in H.
  pose proof (parse_stringify plants) as H1.
  pose proof (parse_stringify plants') as H2.
  rewrite H in H1. rewrite H1 in H2. by injection H2.
Qed.

Lemma persist_injective_witness :
  let rose : gmap string value := {[ "id" := VNum 1; "name" := VStr "Rose" ]} in
  [rose] = [rose].
Proof. intros rose. exact (persist_injective [rose] [rose] eq_refl). Defined.

(** ** The days until watering *)

Section DaysLaws.
Import Date.

Lemma parse_whole_days (s : string) (t : Z) :
  parse s = Some t -> t = Day t * msPerDay.
Proof.
  unfold parse. intros H.
  repeat match type of H with
         | match ?x with _ => _ end = _ => destruct x; try discriminate H
         end.
  repeat match type of H with
         | context [digit ?c] =>
             destruct (digit c); cbn [mbind option_bind] in H;
             [|discriminate H]
         end.
  match type of H with
  | (if ?b then _ else _) = _ => destruct b; [|discriminate H]
  end.
  injection H as <-. unfold Day, msPerDay. by rewrite Z.div_mul.
Qed.

Lemma ceil_div_days (day now : Z) :
  ceil_div (day * msPerDay - now) (1000 * 60 * 60 * 24) = day - Day now.
Proof.
  unfold ceil_div, Day, msPerDay. change (1000 * 60 * 60 * 24) with 86400000.
  replace (- (day * 86400000 - now)) with (now + (- day) * 86400000) by lia.
  rewrite Z.div_add by lia. lia.
Qed.

Lemma daysUntil_date env (plant : gmap string value) (s : string) (day : Z) :
  plant !! "nextWatering" = Some (VStr s) ->
  parse s = Some (day * msPerDay) ->
  Dashboard.daysUntil env plant = Ok (Some (day - Day (App.now env))).
Proof.
  intros Hs Hp. unfold Dashboard.daysUntil, of_value. rewrite Hs, Hp.
  cbn [mbind result_bind Dashboard.minus].
  by rewrite ceil_div_days.
Qed.

End DaysLaws.

(** X19.  For a next-watering date that is a calendar date, the number of
    days shown on a plant card is the number of calendar days, in UTC, from
    today to that date, whatever the time of day: 0 on the day itself,
    negative when the date has passed. *)
Theorem daysUntilWatering_counts_calendar_days
    (env : App.Env) (plant : gmap string value) (s : string) (t : Z) :
  plant !! "nextWatering" = Some (VStr s) ->
  Date.parse s = Some t ->
  PlantCard.daysUntilWatering env plant
    = Ok (Some (Date.Day t - Date.Day (App.now env))).
Proof.
  intros Hs Hp. unfold PlantCard.daysUntilWatering.
  pose proof (parse_whole_days s t Hp) as Ht.
  rewrite Ht in Hp. by apply (daysUntil_date env plant s).
Qed.

Lemma daysUntilWatering_counts_calendar_days_witness :
  let env := {| App.now := 1717243200000; App.zone := Date.kolkata |} in
  let rose : gmap string value := {[ "nextWatering" := VStr "2024-05-30" ]} in
  PlantCard.daysUntilWatering env rose
    = Ok (Some (Date.Day 1717027200000 - Date.Day (App.now env))).
Proof.
  intros env rose.
  apply (daysUntilWatering_counts_calendar_days env rose "2024-05-30"
           1717027200000); reflexivity.
Defined.

(** X20.  A plant whose next-watering date is the date of today is on the
    need-watering list, and its card counts 0 days and reads Today (for a
    clock within the years 0 to 9999). *)
Theorem plant_due_today
    (env : App.Env) (plant : gmap string value) :
  -719528 <= Date.Day (App.now env) <= 2932896 ->
  plant !! "nextWatering" = Some (VStr (App.today env)) ->
  Dashboard.due env plant = true /\
  PlantCard.daysUntilWatering env plant = Ok (Some 0) /\
  PlantCard.badge (Some 0) = "Today".
Proof.
  intros Hyear Hnext. split; [|split; [|done]].
  - unfold Dashboard.due. rewrite Hnext. apply leb_refl.
  - unfold PlantCard.daysUntilWatering.
    rewrite (daysUntil_date env plant (App.today env) (Date.Day (App.now env))).
    + do 2 f_equal. lia.
    + done.
    + by rewrite today_date, parse_date_string.
Qed.

Lemma plant_due_today_witness :
  let env := {| App.now := 1717243200000; App.zone := Date.kolkata |} in
  let rose : gmap string value := {[ "nextWatering" := VStr "2024-06-01" ]} in
  Dashboard.due env rose = true /\
  PlantCard.daysUntilWatering env rose = Ok (Some 0) /\
  PlantCard.badge (Some 0) = "Today".
Proof.
  intros env rose. apply (plant_due_today env rose).
  - vm_compute. split; discriminate.
  - evaluate.
Defined.

(** X21.  The store writes dates that the views read back.  On a
    collection with pairwise distinct ids and a host with a steady offset,
    the entry just watered, with frequency [f], carries a next-watering date
    that is read as a calendar date, and its card counts [f] days until
    watering (for dates within the years 0 to 9999). *)
Theorem watered_plant_counts_frequency
    (env : App.Env) (plants : list (gmap string value)) (i : nat)
    (plant : gmap string value) (f : Z) :
  NoDup ((fun plant : gmap string value => plant !! "id") <$> plants) ->
  plants !! i = Some plant ->
  plant !! "wateringFrequency" = Some (VNum f) ->
  Date.steady (App.zone env) (App.now env) f ->
  Date.in_range (App.now env + f * Date.msPerDay) ->
  -719528 <= Date.Day (App.now env) + f <= 2932896 ->
  exists plants' watered,
    App.waterPlant env plants (plant !! "id") = Ok plants' /\
    plants' !! i = Some watered /\
    Date.of_value (watered !! "nextWatering")
      = Ok (Some ((Date.Day (App.now env) + f) * Date.msPerDay)) /\
    PlantCard.daysUntilWatering env watered = Ok (Some f).
Proof.
  intros Hnd Hi Hf Hsteady Hrange Hyear.
  eexists _, _. split; [|split; [|split]].
  - unfold App.waterPlant. rewrite (find_distinct plants i) by done.
    rewrite Hf, calculateNextWatering_stable by done.
    cbn [mbind result_bind]. by rewrite (updatePlant_distinct plants i).
  - apply list_lookup_insert_eq. by eapply lookup_lt_Some.
  - rewrite watered_spread, lookup_insert_eq. unfold Date.of_value.
    by rewrite parse_date_string.
  - unfold PlantCard.daysUntilWatering.
    rewrite (daysUntil_date env _
               (Date.date_string (Date.Day (App.now env) + f))
               (Date.Day (App.now env) + f)).
    + do 2 f_equal. lia.
    + by rewrite watered_spread, lookup_insert_eq.
    + by apply parse_date_string.
Qed.

Lemma watered_plant_counts_frequency_witness :
  let env := {| App.now := 1717243200000; App.zone := Date.kolkata |} in
  let rose : gmap string value :=
    {[ "id" := VNum 1; "wateringFrequency" := VNum 3 ]} in
  exists plants' watered,
    App.waterPlant env [rose] (Some (VNum 1)) = Ok plants' /\
    plants' !! 0%nat = Some watered /\
    Date.of_value (watered !! "nextWatering")
      = Ok (Some ((Date.Day (App.now env) + 3) * Date.msPerDay)) /\
    PlantCard.daysUntilWatering env watered = Ok (Some 3).
Proof.
  intros env rose.
  apply (watered_plant_counts_frequency env [rose] 0 rose 3).
  - evaluate.
  - reflexivity.
  - reflexivity.
  - reflexivity.
  - vm_compute. discriminate.
  - vm_compute. split; discriminate.
Defined.

(** ** Dates in the store and on the dashboard *)

(** X22.  The dashboard compares dates as texts, and for the dates that the
    store writes this is the comparison of the dates: a plant whose
    next-watering text is the date of the day [day] is due exactly when that
    day is today or earlier, and upcoming exactly when it is after today
    (years 0 to 9999). *)
Theorem due_compares_calendar_dates
    (env : App.Env) (plant : gmap string value) (day : Z) :
  -719528 <= Date.Day (App.now env) <= 2932896 ->
  -719528 <= day <= 2932896 ->
  plant !! "nextWatering" = Some (VStr (Date.date_string day)) ->
  Dashboard.due env plant = (day <=? Date.Day (App.now env)) /\
  Dashboard.later env plant = (Date.Day (App.now env) <? day).
Proof. apply due_date_string. Qed.

Lemma due_compares_calendar_dates_witness :
  let env := {| App.now := 1717243200000; App.zone := Date.kolkata |} in
  let rose : gmap string value := {[ "nextWatering" := VStr "2024-12-31" ]} in
  Dashboard.due env rose = (20088 <=? Date.Day (App.now env)) /\
  Dashboard.later env rose = (Date.Day (App.now env) <? 20088).
Proof.
  intros env rose. apply (due_compares_calendar_dates env rose 20088).
  - vm_compute. split; discriminate.
  - lia.
  - evaluate.
Defined.

(** X23.  Watering takes a plant off the need-watering list when its
    frequency is positive: on a collection with pairwise distinct ids and a
    host with a steady offset, the entry just watered with frequency [f] is
    due only if [f] is 0 or negative, and is upcoming otherwise (dates within
    the years 0 to 9999). *)
Theorem watered_plant_is_upcoming
    (env : App.Env) (plants : list (gmap string value)) (i : nat)
    (plant : gmap string value) (f : Z) :
  NoDup ((fun plant : gmap string value => plant !! "id") <$> plants) ->
  plants !! i = Some plant ->
  plant !! "wateringFrequency" = Some (VNum f) ->
  Date.steady (App.zone env) (App.now env) f ->
  Date.in_range (App.now env + f * Date.msPerDay) ->
  -719528 <= Date.Day (App.now env) <= 2932896 ->
  -719528 <= Date.Day (App.now env) + f <= 2932896 ->
  exists plants' watered,
    App.waterPlant env plants (plant !! "id") = Ok plants' /\
    plants' !! i = Some watered /\
    Dashboard.due env watered = (f <=? 0) /\
    Dashboard.later env watered = (0 <? f).
Proof.
  intros Hnd Hi Hf Hsteady Hrange Hnow Hnext.
  eexists _, _. split; [|split].
  - unfold App.waterPlant. rewrite (find_distinct plants i) by done.
    rewrite Hf, calculateNextWatering_stable by done.
    cbn [mbind result_bind]. by rewrite (updatePlant_distinct plants i).
  - apply list_lookup_insert_eq. by eapply lookup_lt_Some.
  - destruct (due_date_string env
                (<["nextWatering" :=
                     VStr (Date.date_string (Date.Day (App.now env) + f))]>
                   {[ "lastWatered" := VStr (App.today env) ]} ∪ plant)
                (Date.Day (App.now env) + f)) as [-> ->]; [done|done| |].
    + by rewrite watered_spread, lookup_insert_eq.
    + split.
      * destruct (Z.leb_spec f 0); [apply Z.leb_le|apply Z.leb_gt]; lia.
      * destruct (Z.ltb_spec 0 f); [apply Z.ltb_lt|apply Z.ltb_ge]; lia.
Qed.

Lemma watered_plant_is_upcoming_witness :
  let env := {| App.now := 1717243200000; App.zone := Date.kolkata |} in
  let rose : gmap string value :=
    {[ "id" := VNum 1; "wateringFrequency" := VNum 3;
       "nextWatering" := VStr "2024-05-30" ]} in
  exists plants' watered,
    App.waterPlant env [rose] (Some (VNum 1)) = Ok plants' /\
    plants' !! 0%nat = Some watered /\
    Dashboard.due env watered = (3 <=? 0) /\
    Dashboard.later env watered = (0 <? 3).
Proof.
  intros env rose.
  apply (watered_plant_is_upcoming env [rose] 0 rose 3).
  - evaluate.
  - reflexivity.
  - reflexivity.
  - reflexivity.
  - vm_compute. discriminate.
  - vm_compute. split; discriminate.
  - vm_compute. split; discriminate.
Defined.

(** X24.  A plant just added is upcoming when its frequency is positive,
    and due from the start when the frequency is 0 or negative, which the
    form lets through for a negative input: on a host with a steady offset
    the entry that [addPlant] appends is due exactly when [f <= 0] (dates
    within the years 0 to 9999). *)
Theorem added_plant_is_upcoming
    (env : App.Env) (plants : list (gmap string value))
    (newPlant : gmap string value) (f : Z) :
  newPlant !! "wateringFrequency" = Some (VNum f) ->
  Date.steady (App.zone env) (App.now env) f ->
  Date.in_range (App.now env + f * Date.msPerDay) ->
  -719528 <= Date.Day (App.now env) <= 2932896 ->
  -719528 <= Date.Day (App.now env) + f <= 2932896 ->
  exists added,
    App.addPlant env plants newPlant = Ok (plants ++ [added]) /\
    Dashboard.due env added = (f <=? 0) /\
    Dashboard.later env added = (0 <? f).
Proof.
  intros Hf Hsteady Hrange Hnow Hnext.
  eexists. split.
  - unfold App.addPlant. rewrite Hf, calculateNextWatering_stable by done.
    reflexivity.
  - destruct (due_date_string env
                (<["createdAt" := VStr (App.today env)]>
                   (<["nextWatering" :=
                        VStr (Date.date_string (Date.Day (App.now env) + f))]>
                   (<["lastWatered" := VStr (App.today env)]>
                   (<["id" := VNum (App.now env)]> newPlant))))
                (Date.Day (App.now env) + f)) as [-> ->]; [done|done| |].
    + rewrite lookup_insert_ne by done. apply lookup_insert_eq.
    + split.
      * destruct (Z.leb_spec f 0); [apply Z.leb_le|apply Z.leb_gt]; lia.
      * destruct (Z.ltb_spec 0 f); [apply Z.ltb_lt|apply Z.ltb_ge]; lia.
Qed.

Lemma added_plant_is_upcoming_witness :
  let env := {| App.now := 1717243200000; App.zone := Date.kolkata |} in
  let prev := PlantForm.handleChange PlantForm.initialFormData "name" (VStr "Fern") in
  let formData := <["wateringFrequency" := VNum (-5)]> prev in
  PlantForm.changeWateringFrequency prev "-5" = Ok formData /\
  exists added,
    App.addPlant env [] formData = Ok ([] ++ [added]) /\
    Dashboard.due env added = (-5 <=? 0) /\
    Dashboard.later env added = (0 <? -5).
Proof.
  intros env prev formData. split; [evaluate|].
  apply (added_plant_is_upcoming env [] formData (-5)).
  - reflexivity.
  - reflexivity.
  - vm_compute. discriminate.
  - vm_compute. split; discriminate.
  - vm_compute. split; discriminate.
Defined.
